(** * Ensemble consensus calling and PureCN interval clean-up

    A shallow embedding of [bcbio/variation/ensemble.py] and of the
    overlap filter of [bcbio/structural/purecn.py].  Python dictionaries
    with a fixed set of keys become records, optional keys become
    [option] fields, [collections.defaultdict(list)] becomes a [gmap] read
    with the empty list as default, exceptions become the [Raise] branch of
    a result type, and the file system together with the calls made to
    external collaborators is threaded through a state monad. *)

From Stdlib Require Import ZArith String Ascii List Bool Lia.
From stdpp Require Import base option list functions gmap strings.

Local Open Scope string_scope.
Local Open Scope list_scope.
Local Open Scope Z_scope.

(** ** Exceptions and results *)

Inductive exn : Type :=
| AssertionError
| UnboundLocalError
| TypeError
| ValueError
| IndexError
| KeyError
| IOError
| ToolFailure.

Inductive res (A : Type) : Type :=
| Ok (a : A)
| Raise (e : exn).
Arguments Ok {A} a.
Arguments Raise {A} e.

Definition res_bind {A B : Type} (f : A → res B) (r : res A) : res B :=
  match r with
  | Ok a => f a
  | Raise e => Raise e
  end.

#[global] Instance res_ret : MRet res := λ A a, Ok a.
#[global] Instance res_mbind : MBind res := λ A B f r, res_bind f r.

(** ** Python strings *)

Module Py.

Definition tab : ascii := "009"%char.
Definition nl : ascii := "010"%char.

(** [s.startswith(p)] *)
Definition startswith (p s : string) : bool := String.prefix p s.

(** [sub in s] *)
Fixpoint contains (sub s : string) : bool :=
  match s with
  | EmptyString => String.prefix sub EmptyString
  | String _ r => String.prefix sub s || contains sub r
  end.

(** [s.replace(old, new)] for a non-empty [old]: every occurrence, found
    from the left and not overlapping, is replaced.  [skip] counts the
    characters of a matched occurrence still to be passed over. *)
Fixpoint replace_from (skip : nat) (old new s : string) : string :=
  match s with
  | EmptyString => EmptyString
  | String c r =>
      match skip with
      | S k => replace_from k old new r
      | O =>
          if String.prefix old s
          then new +:+ replace_from (Nat.pred (String.length old)) old new r
          else String c (replace_from O old new r)
      end
  end.

Definition replace (old new s : string) : string := replace_from O old new s.

Definition lower_ascii (c : ascii) : ascii :=
  let n := nat_of_ascii c in
  if (Nat.leb 65 n && Nat.leb n 90)%bool then ascii_of_nat (n + 32) else c.

(** [s.lower()] *)
Fixpoint lower (s : string) : string :=
  match s with
  | EmptyString => EmptyString
  | String c r => String (lower_ascii c) (lower r)
  end.

(** [s.split(sep, maxsplit)] for a one-character separator. *)
Fixpoint split (sep : ascii) (maxsplit : nat) (s : string) : list string :=
  match s with
  | EmptyString => [EmptyString]
  | String c r =>
      match maxsplit with
      | S k => if Ascii.eqb c sep then EmptyString :: split sep k r
               else match split sep maxsplit r with
                    | h :: t => String c h :: t
                    | [] => [String c EmptyString]
                    end
      | O => [s]
      end
  end.

Definition is_space (c : ascii) : bool :=
  let n := nat_of_ascii c in
  (Nat.eqb n 32 || (Nat.leb 9 n && Nat.leb n 13))%bool.

Fixpoint lstrip (s : string) : string :=
  match s with
  | String c r => if is_space c then lstrip r else s
  | EmptyString => EmptyString
  end.

(** [s.rstrip()]: a space is dropped when only spaces follow it. *)
Fixpoint rstrip (s : string) : string :=
  match s with
  | EmptyString => EmptyString
  | String c r =>
      match rstrip r with
      | EmptyString => if is_space c then EmptyString else String c EmptyString
      | r' => String c r'
      end
  end.

Definition strip (s : string) : string := rstrip (lstrip s).

Definition digit (c : ascii) : option Z :=
  let n := nat_of_ascii c in
  if (Nat.leb 48 n && Nat.leb n 57)%bool then Some (Z.of_nat n - 48) else None.

Fixpoint digits (acc : Z) (s : string) : option Z :=
  match s with
  | EmptyString => Some acc
  | String c r => match digit c with
                  | Some d => digits (10 * acc + d) r
                  | None => None
                  end
  end.

(** [int(s)] in base ten: surrounding white space is ignored, one sign
    is allowed and at least one digit is required. *)
Definition int (s : string) : res Z :=
  let unsigned (t : string) : option Z :=
    match t with
    | EmptyString => None
    | _ => digits 0 t
    end in
  let r := match strip s with
           | String "-" t => Z.opp <$> unsigned t
           | String "+" t => unsigned t
           | t => unsigned t
           end in
  match r with
  | Some z => Ok z
  | None => Raise ValueError
  end.

(** Iterating over a text file handle: the lines with their terminators;
    a last line without terminator is a line of its own. *)
Fixpoint readlines_from (cur : string) (s : string) : list string :=
  match s with
  | EmptyString => match cur with EmptyString => [] | _ => [String.rev cur] end
  | String c r =>
      if Ascii.eqb c nl then String.rev (String c cur) :: readlines_from EmptyString r
      else readlines_from (String c cur) r
  end.

Definition readlines (s : string) : list string := readlines_from EmptyString s.

(** Truth value of [None] or a string. *)
Definition truthy (o : option string) : bool :=
  match o with
  | Some (String _ _) => true
  | _ => false
  end.

(** [posixpath.join(a, b)] *)
Definition path_join (a b : string) : string :=
  if String.prefix "/" b then b
  else match a with
       | EmptyString => b
       | _ => if String.prefix "/" (String.rev a) then a +:+ b else a +:+ "/" +:+ b
       end.

End Py.

(** ** Samples and call results *)

(** A reference to a file as the dictionaries hold it: a path or [None]. *)
Abbreviation fref := (option string).

(** One entry of [data["variants"]].  The ensemble result inserted by
    [combine_calls_parallel] is such an entry too.  [vrn_file_batch] and
    [validate] are [None] when the key is absent. *)
Record variant : Type := Variant {
  variantcaller : string;
  vrn_file : fref;
  vrn_file_batch : fref;
  bed_file : fref;
  validate : option string
}.

(** [data["metadata"]]; both keys are optional. *)
Record metadata_t : Type := Metadata {
  batch : option string;
  phenotype : option string
}.

(** [data["config"]["algorithm"]["ensemble"]]; ["caller"] is optional. *)
Record ensemble_cfg : Type := EnsembleCfg {
  ens_params : string;
  ens_caller : option string
}.

(** A sample ([data]).  [metadata], [work_bam] and the [ensemble] entry
    of the algorithm configuration are optional keys. *)
Record sample : Type := Sample {
  name : list string;
  metadata : option metadata_t;
  variants : list variant;
  work_bam : option string;
  algorithm_ensemble : option ensemble_cfg;
  dirs_work : string;
  sam_ref : string
}.

(** The dictionaries of the samples, by object identity.  The lists
    handled by [combine_calls_parallel] hold references to them, and the
    insertion of its line 62 updates the dictionary referred to, for every
    list that holds the reference. *)
Abbreviation store := (nat → sample).

(** ** The outside world *)

Record file : Type := File {
  mtime : Z;
  content : string
}.

(** Calls that leave this code for a collaborator running a tool. *)
Inductive ext : Type :=
| SelectSample (in_file sample_name out_file filters : string)
| MultisampleVcf (fnames : list fref) (batch_id caller : string)
| VariantEnsemble (vrn_files : list fref) (out_file ref_file config_file base_dir : string)
| RecallEnsemble (caller out_file ref_file : string) (vrn_files : list fref)
    (bam_files : list string)
| SnpeffEffects (in_vrn_file : string)
| CompareToRm (in_vrn_file : fref) (ensemble_bed : fref).

(** The state threaded through the code: the files, a clock that stamps
    writes, and the collaborator calls made so far, oldest first. *)
Record world : Type := World {
  files : gmap string file;
  clock : Z;
  called : list ext
}.

Definition M (A : Type) : Type := world → res A * world.

#[global] Instance M_ret : MRet M := λ A a w, (Ok a, w).
#[global] Instance M_bind : MBind M := λ A B f m w,
  match m w with
  | (Ok a, w') => f a w'
  | (Raise e, w') => (Raise e, w')
  end.

Definition raise {A : Type} (e : exn) : M A := λ w, (Raise e, w).
Definition lift {A : Type} (r : res A) : M A := λ w, (r, w).
Definition gets {A : Type} (f : world → A) : M A := λ w, (Ok (f w), w).
Definition modify (f : world → world) : M unit := λ w, (Ok tt, f w).

(** Unfolds the operations of the monad. *)
Ltac munfold :=
  unfold mbind, M_bind, mret, M_ret, lift, raise, gets, modify in *.

(** What lies outside the two source files: the effect of each tool on
    the files, the names collaborators choose for their outputs, and
    pure helpers of [bcbio.utils], [validate] and [yaml]. *)
Record externals : Type := Externals {
  tool : ext → Z → gmap string file → res (gmap string file);
  multisample_vcf_name : list fref → string → string → sample → string;
  snpeff_vcf_name : string → fref;
  validate_summary : fref → fref → option string;
  get_analysis_intervals : sample → option string;
  abspath : string → string;
  yaml_safe_dump : ensemble_cfg → list string → option string → string;
  splitext_plus : string → string * string;
  tx_name : string → string
}.

Module FS.

(** Modelled from the spec: [utils.file_exists] is not among the sources;
    the core performs "existence and non-emptiness checks only". *)
Definition file_exists (w : world) (p : string) : bool :=
  match files w !! p with
  | Some f => negb (String.eqb (content f) "")
  | None => false
  end.

(** Modelled from the spec: [utils.file_uptodate] is not among the
    sources; an output is valid when "it exists AND is not older than"
    the input it is compared with. *)
Definition file_uptodate (w : world) (p cmp : string) : bool :=
  file_exists w p && file_exists w cmp &&
  match files w !! p, files w !! cmp with
  | Some f, Some g => mtime f >=? mtime g
  | _, _ => false
  end.

(** [os.path.exists] *)
Definition path_exists (w : world) (p : string) : bool :=
  bool_decide (is_Some (files w !! p)).

(** [open(p).read()] *)
Definition read (p : string) : M string := λ w,
  match files w !! p with
  | Some f => (Ok (content f), w)
  | None => (Raise IOError, w)
  end.

(** [open(p, "w")] followed by the writes and the close. *)
Definition write (p : string) (s : string) : M unit :=
  modify (λ w, World (<[p := File (clock w) s]> (files w)) (clock w + 1) (called w)).

Definition remove (p : string) : M unit :=
  modify (λ w, World (delete p (files w)) (clock w) (called w)).

(** [shutil.move(src, dst)] of an existing file. *)
Definition move (src dst : string) : M unit := λ w,
  match files w !! src with
  | Some f => (Ok tt, World (<[dst := f]> (delete src (files w))) (clock w) (called w))
  | None => (Raise IOError, w)
  end.

(** Modelled from the spec: [utils.symlink_plus] is not among the
    sources; the builder must "link/copy it into the expected location":
    the new name holds what the original holds. *)
Definition symlink_plus (orig new : string) : M unit := λ w,
  match files w !! orig with
  | Some f => (Ok tt, World (<[new := f]> (files w)) (clock w) (called w))
  | None => (Ok tt, w)
  end.

(** [utils.safe_makedir]: directories are not tracked, the path is
    returned. *)
Definition safe_makedir (d : string) : M string := mret d.

(** [os.path.basename] *)
Fixpoint basename_from (cur s : string) : string :=
  match s with
  | EmptyString => String.rev cur
  | String c r => if Ascii.eqb c "/" then basename_from EmptyString r
                  else basename_from (String c cur) r
  end.
Definition basename (p : string) : string := basename_from EmptyString p.

Definition is_suffix (suf s : string) : bool :=
  String.prefix (String.rev suf) (String.rev s).

(** [glob.glob(os.path.join(dir, "*" + suffix))]: the files directly
    under [dir] whose name ends in [suffix] and does not start with a
    dot. *)
Definition glob_star (w : world) (dir suffix : string) : list string :=
  filter (λ p, Is_true (String.eqb (Py.path_join dir (basename p)) p
                        && is_suffix suffix (basename p)
                        && negb (String.prefix "." (basename p))))
         (map fst (map_to_list (files w))).

(** A call to an external collaborator: it is recorded, and the tool
    acts on the files; a tool that fails raises. *)
Definition call (E : externals) (e : ext) : M unit := λ w,
  let w' := World (files w) (clock w) (called w ++ [e]) in
  match tool E e (clock w) (files w) with
  | Ok fs => (Ok tt, World fs (clock w + 1) (called w'))
  | Raise x => (Raise x, w')
  end.

(** Modelled from the spec: [file_transaction] is not among the sources;
    the body writes "at a temporary location distinct from" the output,
    which is published by a move only after the body succeeded; on a
    failure the temporary file is discarded and the error propagates. *)
Definition file_transaction {A : Type} (E : externals) (out_file : string)
    (body : string → M A) : M A := λ w,
  let tx := tx_name E out_file in
  match body tx w with
  | (Ok a, w') =>
      match move tx out_file w' with
      | (Ok _, w'') => (Ok a, w'')
      | (Raise e, w'') => (Raise e, w'')
      end
  | (Raise e, w') => (Raise e, snd (remove tx w'))
  end.

End FS.

(** ** Interval overlap filter ([purecn.py], [_remove_overlaps]) *)

Module PureCN.

(** [chrom, start, end = line.split("\t", 4)[:3]] *)
Definition fields3 (line : string) : res (string * string * string) :=
  match take 3 (Py.split Py.tab 4 line) with
  | [c; s; e] => Ok (c, s, e)
  | _ => Raise ValueError
  end.

(** The test of line 148; [int] is reached only when the chromosomes are
    the same. *)
Definition overlaps (prev_line line : string) : res bool :=
  '(pchrom, pstart, pend) ← fields3 prev_line;
  '(cchrom, cstart, cend) ← fields3 line;
  if String.eqb pchrom cchrom then
    pe ← Py.int pend;
    cs ← Py.int cstart;
    mret (pe >? cs)
  else mret false.

(** Loop state: the pending line and what was written to the output
    handle so far. *)
Record scan_state : Type := ScanState {
  prev_line : option string;
  written : list string
}.

(** Body of the [for] loop, lines 144-152. *)
Definition scan_step (st : scan_state) (line : string) : res scan_state :=
  out ← (if Py.truthy (prev_line st) then
           match prev_line st with
           | Some p =>
               b ← overlaps p line;
               mret (if b : bool then written st else written st ++ [p])
           | None => mret (written st)
           end
         else mret (written st));
  mret (ScanState (Some line) out).

Fixpoint scan_loop (st : scan_state) (lines : list string) : res scan_state :=
  match lines with
  | [] => Ok st
  | line :: rest => st' ← scan_step st line; scan_loop st' rest
  end.

(** Line 153: the write of the pending line, a [TypeError] when
    [prev_line] is still [None]. *)
Definition finish (st : scan_state) : res (list string) :=
  match prev_line st with
  | Some p => Ok (written st ++ [p])
  | None => Raise TypeError
  end.

(** Lines 142-153: the loop, then the last write. *)
Definition remove_overlaps_lines (lines : list string) : res (list string) :=
  st ← scan_loop (ScanState None []) lines;
  finish st.

(** Line 137: the name of the output file. *)
Definition nooverlaps_name (E : externals) (in_file out_dir : string) : string :=
  let '(base, ext) := splitext_plus E (FS.basename in_file) in
  Py.path_join out_dir (base +:+ "-nooverlaps" +:+ ext).

(** [_remove_overlaps(in_file, out_dir, data)] *)
Definition _remove_overlaps (E : externals) (in_file out_dir : string) : M string :=
  let out_file := nooverlaps_name E in_file out_dir in
  uptodate ← gets (λ w, FS.file_uptodate w out_file in_file);
  (if uptodate : bool then mret tt
   else FS.file_transaction E out_file (λ tx_out_file,
          text ← FS.read in_file;
          FS.write tx_out_file "";;
          out ← lift (remove_overlaps_lines (Py.readlines text));
          FS.write tx_out_file (String.concat "" out)));;
  mret out_file.

End PureCN.

(** ** Ensemble calling ([ensemble.py]) *)

Module Ensemble.

Section WithExternals.

Variable E : externals.

(** Modelled from the spec: [vcfutils.vcf_has_variants] is not among the
    sources; it tells whether a file holds "any actual variant/call
    records", a line that is neither blank nor a header line.  A file
    that is absent has none; [None] is not a path. *)
Definition vcf_has_variants (f : fref) : M bool :=
  match f with
  | None => raise TypeError
  | Some p => gets (λ w,
      match files w !! p with
      | Some fl => existsb (λ line, negb (String.eqb (Py.strip line) "")
                                    && negb (Py.startswith "#" line))
                           (Py.readlines (content fl))
      | None => false
      end)
  end.

Definition empty_vcf : string :=
  "##fileformat=VCFv4.1" +:+ String Py.nl
  ("#CHROM" +:+ String Py.tab ("POS" +:+ String Py.tab ("ID" +:+ String Py.tab
  ("REF" +:+ String Py.tab ("ALT" +:+ String Py.tab ("QUAL" +:+ String Py.tab
  ("FILTER" +:+ String Py.tab ("INFO" +:+ String Py.nl "")))))))).

(** Modelled from the spec: [vcfutils.write_empty_vcf] is not among the
    sources; what it writes is "an empty, well-formed output artifact":
    header lines and no record. *)
Definition write_empty_vcf (out_file : string) : M unit :=
  FS.write out_file empty_vcf.

(** Modelled from the spec: [vcfutils.select_sample] is not among the
    sources; the file is "reduced to the matched-tumor sample column and
    filtered", which "produces a new filtered file" at [out_file]. *)
Definition select_sample (in_file sample_name out_file filters : string) : M fref :=
  FS.call E (SelectSample in_file sample_name out_file filters);;
  mret (Some out_file).

(** Modelled from the spec: [population.get_multisample_vcf] is not
    among the sources; the "merge is delegated to an external
    collaborator (multi-sample combination tool)", and the merged file is
    named from "caller name and batch identifier". *)
Definition get_multisample_vcf (fnames : list fref) (batch_id caller : string)
    (data : sample) : M fref :=
  FS.call E (MultisampleVcf fnames batch_id caller);;
  mret (Some (multisample_vcf_name E fnames batch_id caller data)).

(** [_has_ensemble(data)] *)
Definition _has_ensemble (data : sample) : bool :=
  let variants_to_process :=
    if bool_decide (1 < length (variants data))%nat
       && existsb (λ x, bool_decide (vrn_file x ≠ None)
                        || bool_decide (vrn_file_batch x ≠ None))
                  (variants data)
    then true else false in
  variants_to_process && bool_decide (is_Some (algorithm_ensemble data)).

(** [x[0]] *)
Definition first {A : Type} (l : list A) : res A :=
  match l with
  | x :: _ => Ok x
  | [] => Raise IndexError
  end.

(** [data["name"][-1]] *)
Definition name_last (data : sample) : res string :=
  match last (name data) with
  | Some n => Ok n
  | None => Raise IndexError
  end.

(** [data.get("metadata", {}).get("batch")] *)
Definition batch_tag (data : sample) : option string :=
  m ← metadata data; batch m.

Fixpoint mapM_res {A B : Type} (f : A → res B) (l : list A) : res (list B) :=
  match l with
  | [] => Ok []
  | x :: r => y ← f x; ys ← mapM_res f r; mret (y :: ys)
  end.

Section Grouper.

(** Samples are handled by reference: an element of type [A] stands for
    a dictionary, which [view] reads.  With the identity for [view] the
    elements are the dictionaries themselves. *)
Context {A : Type} (view : A → sample).

(** Body of the loop of [_group_by_batches], lines 78-86. *)
Definition group_step (check_fn : A → bool)
    (st : gmap string (list A) * list (list A)) (data : A)
  : res (gmap string (list A) * list (list A)) :=
  let '(batch_groups, extras) := st in
  if check_fn data then
    if Py.truthy (batch_tag (view data)) then
      match batch_tag (view data) with
      | Some b => Ok (<[b := default [] (batch_groups !! b) ++ [data]]> batch_groups, extras)
      | None => Ok st
      end
    else
      n ← name_last (view data);
      if bool_decide (is_Some (batch_groups !! n)) then Raise AssertionError
      else Ok (<[n := [data]]> batch_groups, extras)
  else Ok (batch_groups, extras ++ [[data]]).

Fixpoint group_loop (check_fn : A → bool)
    (st : gmap string (list A) * list (list A)) (l : list A)
  : res (gmap string (list A) * list (list A)) :=
  match l with
  | [] => Ok st
  | data :: r => st' ← group_step check_fn st data; group_loop check_fn st' r
  end.

(** [_group_by_batches(samples, check_fn)] *)
Definition _group_by_batches (samples : list (list A)) (check_fn : A → bool)
  : res (gmap string (list A) * list (list A)) :=
  datas ← mapM_res first samples;
  group_loop check_fn (∅, []) datas.

End Grouper.

(** [data["name"][1]] *)
Definition name_second (data : sample) : res string :=
  match name data !! 1%nat with
  | Some n => Ok n
  | None => Raise IndexError
  end.

(** The test of line 102: a non-empty [metadata] whose phenotype, read
    with the default ["normal"], starts with "tumor" in lower case. *)
Definition is_tumor (data : sample) : bool :=
  match metadata data with
  | Some m => Py.startswith "tumor" (Py.lower (default "normal" (phenotype m)))
  | None => false
  end.

Fixpoint foldM {A S : Type} (f : S → A → M S) (s : S) (l : list A) : M S :=
  match l with
  | [] => mret s
  | x :: r => s' ← f s x; foldM f s' r
  end.

(** Locals of [_organize_variants] that live across iterations.
    [vrn_file_temp] is [None] as long as the name is unbound. *)
Record org_state : Type := OrgState {
  bam_files : gset string;
  calls : gmap string (list fref);
  vrn_file_temp : option string
}.

Definition tumor_suffix : string := "_tumorOnly_noFilteredCalls".

(** Line 103: the name of the filtered file. *)
Definition tumor_only_name (st : org_state) (vrn_file : string) : res string :=
  if Py.contains ".vcf" vrn_file
  then Ok (Py.replace ".vcf" (tumor_suffix +:+ ".vcf") vrn_file)
  else match vrn_file_temp st with
       | Some t => Ok (t +:+ tumor_suffix +:+ ".vcf.gz")
       | None => Raise UnboundLocalError
       end.

(** Body of the inner loop, lines 99-108. *)
Definition organize_vrn (data : sample) (st : org_state) (vrn : variant) : M org_state :=
  '(vrn_file', temp') ←
    (if is_tumor data then
       match vrn_file vrn with
       | None => raise TypeError
       | Some f =>
           t ← lift (tumor_only_name st f);
           sn ← lift (name_second data);
           r ← select_sample f sn t "PASS,.";
           mret (r, Some t)
       end
     else mret (vrn_file vrn, vrn_file_temp st));
  mret (OrgState (bam_files st)
          (<[variantcaller vrn :=
               default [] (calls st !! variantcaller vrn) ++ [vrn_file']]> (calls st))
          temp').

(** Body of the outer loop, lines 96-108. *)
Definition organize_sample (st : org_state) (data : sample) : M org_state :=
  let bams := match work_bam data with
              | Some b => {[ b ]} ∪ bam_files st
              | None => bam_files st
              end in
  foldM (organize_vrn data) (OrgState bams (calls st) (vrn_file_temp st)) (variants data).

(** Body of the second loop, lines 112-116. *)
Definition representative (calls : gmap string (list fref)) (batch_id : string)
    (data : sample) (vrn_files : list fref) (caller : string) : M (list fref) :=
  let fnames := default [] (calls !! caller) in
  match fnames with
  | [f] => mret (vrn_files ++ [f])
  | _ => m ← get_multisample_vcf fnames batch_id caller data; mret (vrn_files ++ [m])
  end.

(** [_organize_variants(samples, batch_id)] *)
Definition _organize_variants (samples : list sample) (batch_id : string)
  : M (list string * list fref * list string) :=
  s0 ← lift (first samples);
  let caller_names := map variantcaller (variants s0) in
  st ← foldM organize_sample (OrgState ∅ ∅ None) samples;
  vrn_files ← foldM (representative (calls st) batch_id s0) [] caller_names;
  mret (caller_names, vrn_files, elements (bam_files st)).

(** [os.path.splitext(p)[0]]: the last dot of the last component ends
    the root, unless only dots come before it in that component. *)
Definition splitext_root (p : string) : string :=
  let b := FS.basename p in
  let dir := String.substring 0 (String.length p - String.length b) p in
  let fix cut (rb : string) : option string :=
    match rb with
    | EmptyString => None
    | String c r => if Ascii.eqb c "." then Some r else cut r
    end in
  let fix only_dots (s : string) : bool :=
    match s with
    | EmptyString => true
    | String c r => Ascii.eqb c "." && only_dots r
    end in
  match cut (String.rev b) with
  | Some rroot => if only_dots rroot then p else dir +:+ String.rev rroot
  | None => p
  end.

(** [_bcbio_variation_ensemble]: the Java tool is run in [base_dir]. *)
Definition _bcbio_variation_ensemble (vrn_files : list fref)
    (out_file ref_file config_file base_dir : string) : M unit :=
  _ ← FS.safe_makedir (Py.path_join base_dir "tmp");
  FS.call E (VariantEnsemble vrn_files out_file ref_file config_file base_dir).

Definition ensemble_result (vrn bed : fref) : variant :=
  Variant "ensemble" vrn None bed None.

(** Lines 139-144 of [_run_ensemble]: the tool is run when the output
    is not there, and its combined calls are linked when it left none. *)
Definition ensure_vcf (vrn_files : list fref)
    (out_vcf_file ref_file config_file base_dir prep : string) : M unit :=
  have_vcf ← gets (λ w, FS.file_exists w out_vcf_file);
  if have_vcf : bool then mret tt
  else
    _bcbio_variation_ensemble vrn_files out_vcf_file ref_file config_file base_dir;;
    have_vcf' ← gets (λ w, FS.file_exists w out_vcf_file);
    if have_vcf' : bool then mret tt
    else
      found ← gets (λ w, FS.glob_star w prep "-cfilter.vcf");
      base_vcf ← lift (first found);
      FS.symlink_plus base_vcf out_vcf_file.

(** Lines 145-148: the callable regions are linked when there are any. *)
Definition ensure_bed (out_bed_file prep : string) : M unit :=
  have_bed ← gets (λ w, FS.file_exists w out_bed_file);
  if have_bed : bool then mret tt
  else
    multi_beds ← gets (λ w, FS.glob_star w prep "-multicombine.bed");
    match multi_beds with
    | b :: _ => FS.symlink_plus b out_bed_file
    | [] => mret tt
    end.

(** [_run_ensemble(batch_id, vrn_files, config_file, base_dir, ref_file, config)] *)
Definition _run_ensemble (batch_id : string) (vrn_files : list fref)
    (config_file base_dir ref_file : string) : M variant :=
  let out_vcf_file := Py.path_join base_dir (batch_id +:+ "-ensemble.vcf") in
  let out_bed_file := Py.path_join base_dir (batch_id +:+ "-callregions.bed") in
  let work_dir := splitext_root out_vcf_file +:+ "-work" in
  let prep := Py.path_join work_dir "prep" in
  ensure_vcf vrn_files out_vcf_file ref_file config_file base_dir prep;;
  ensure_bed out_bed_file prep;;
  bed_there ← gets (λ w, FS.path_exists w out_bed_file);
  mret (ensemble_result (Some out_vcf_file)
          (if bed_there : bool then Some out_bed_file else None)).

(** [data["config"]["algorithm"]["ensemble"]] *)
Definition ensemble_of (data : sample) : res ensemble_cfg :=
  match algorithm_ensemble data with
  | Some c => Ok c
  | None => Raise KeyError
  end.

(** [_write_config_file(batch_id, caller_names, base_dir, data)] *)
Definition _write_config_file (batch_id : string) (caller_names : list string)
    (base_dir : string) (data : sample) : M string :=
  config_dir ← FS.safe_makedir (Py.path_join base_dir "config");
  let config_file := Py.path_join config_dir (batch_id +:+ "-ensemble.yaml") in
  ens ← lift (ensemble_of data);
  let intervals := get_analysis_intervals E data in
  let econfig_intervals :=
    if Py.truthy intervals then abspath E <$> intervals else None in
  FS.write config_file (yaml_safe_dump E ens caller_names econfig_intervals);;
  mret config_file.

(** [_run_ensemble_w_caller(batch_id, vrn_files, bam_files, base_dir, edata)] *)
Definition _run_ensemble_w_caller (batch_id : string) (vrn_files : list fref)
    (bam_files : list string) (base_dir : string) (edata : sample) : M variant :=
  let out_vcf_file := Py.path_join base_dir (batch_id +:+ "-ensemble.vcf") in
  have_vcf ← gets (λ w, FS.file_exists w out_vcf_file);
  (if have_vcf : bool then mret tt
   else
     ens ← lift (ensemble_of edata);
     caller ← lift (match ens_caller ens with
                    | Some c => Ok c
                    | None => Raise KeyError
                    end);
     FS.call E (RecallEnsemble caller out_vcf_file (sam_ref edata) vrn_files bam_files));;
  FS.call E (SnpeffEffects out_vcf_file);;
  mret (ensemble_result (snpeff_vcf_name E out_vcf_file) None).

(** The loop of lines 30-33: stops at the first file with variants. *)
Fixpoint any_has_variants (vrn_files : list fref) : M bool :=
  match vrn_files with
  | [] => mret false
  | f :: r => b ← vcf_has_variants f; if b : bool then mret true else any_has_variants r
  end.

(** [combine_calls(batch_id, samples, data)] *)
Definition combine_calls (batch_id : string) (samples : list sample) (data : sample)
  : M (list (string * variant)) :=
  _ ← lift (first samples);
  let edata := data in
  base_dir ← FS.safe_makedir
    (Py.path_join (Py.path_join (dirs_work edata) "ensemble") batch_id);
  '(caller_names, vrn_files, bam_files) ← _organize_variants samples batch_id;
  exist_variants ← any_has_variants vrn_files;
  if exist_variants : bool then
    ens ← lift (ensemble_of edata);
    callinfo ←
      (if bool_decide (is_Some (ens_caller ens)) then
         _run_ensemble_w_caller batch_id vrn_files bam_files base_dir edata
       else
         config_file ← _write_config_file batch_id caller_names base_dir edata;
         _run_ensemble batch_id vrn_files config_file base_dir (sam_ref edata));
    FS.call E (CompareToRm (vrn_file callinfo) (bed_file callinfo));;
    let v := validate_summary E (vrn_file callinfo) (bed_file callinfo) in
    mret [(batch_id, Variant (variantcaller callinfo) (vrn_file callinfo)
                       (vrn_file_batch callinfo) (bed_file callinfo) v)]
  else
    let out_vcf_file := Py.path_join base_dir (batch_id +:+ "-ensemble.vcf") in
    write_empty_vcf out_vcf_file;;
    mret [(batch_id, ensemble_result (Some out_vcf_file) None)].

(** [data["variants"].insert(0, callinfo)] *)
Definition insert_callinfo (callinfo : variant) (data : sample) : sample :=
  Sample (name data) (metadata data) (callinfo :: variants data) (work_bam data)
         (algorithm_ensemble data) (dirs_work data) (sam_ref data).

(** Lines 61-63, for one sample of the batch. *)
Definition insert_step (callinfo : variant) (st : list (list nat) * store) (data : nat)
  : list (list nat) * store :=
  let '(out, h) := st in
  (out ++ [[data]], <[data := insert_callinfo callinfo (h data)]> h).

(** Lines 60-63, for one element of [processed]. *)
Definition processed_step (batch_groups : gmap string (list nat))
    (st : list (list nat) * store) (p : string * variant) : list (list nat) * store :=
  let '(batch_id, callinfo) := p in
  fold_left (insert_step callinfo) (default [] (batch_groups !! batch_id)) st.

(** The argument tuples [(b, xs, xs[0])] handed to [run_parallel], which
    gets the samples as they are at that moment and is taken to leave
    them as they are ([combine_calls] works on a deep copy). *)
Definition batch_args (h : store) (batch_groups : gmap string (list nat))
  : res (list (string * list sample * sample)) :=
  mapM_res (λ '(b, xs), x0 ← first xs; mret (b, map h xs, h x0))
           (map_to_list batch_groups).

(** [combine_calls_parallel(samples, run_parallel)]: the list returned,
    with the dictionaries as the call leaves them. *)
Definition combine_calls_parallel (h : store) (samples : list (list nat))
    (run_parallel : string → list (string * list sample * sample)
                    → M (list (string * variant)))
  : M (list (list nat) * store) :=
  '(batch_groups, extras) ←
    lift (_group_by_batches h samples (λ data, _has_ensemble (h data)));
  '(out, h') ← (if bool_decide (batch_groups ≠ ∅) then
                  args ← lift (batch_args h batch_groups);
                  processed ← run_parallel "combine_calls" args;
                  mret (fold_left (processed_step batch_groups) processed ([], h))
                else mret ([], h));
  mret (out ++ extras, h').

(** A [run_parallel] that runs the batches one after the other. *)
Definition run_sequential (fn : string) (args : list (string * list sample * sample))
  : M (list (string * variant)) :=
  foldM (λ acc '(b, xs, x0), r ← combine_calls b xs x0; mret (acc ++ r)) [] args.

End WithExternals.

End Ensemble.

(** A line of a BED-like file: three tab-separated fields and the line
    terminator. *)
Definition bed_line (chrom start end_ : string) : string :=
  chrom +:+ String Py.tab (start +:+ String Py.tab (end_ +:+ String Py.nl "")).

(** ** An environment and inputs for examples *)

Module Example.

Definition merged_name (fnames : list fref) (batch_id caller : string) (data : sample)
  : string :=
  Py.path_join (dirs_work data) (batch_id +:+ "-" +:+ caller +:+ ".vcf").

(** The merge tool writes the merged file under "work", here without
    records; every other tool leaves the files as they are. *)
Definition E0 : externals := {|
  tool := λ e t fs,
    match e with
    | MultisampleVcf fnames b c =>
        Ok (<[Py.path_join "work" (b +:+ "-" +:+ c +:+ ".vcf")
              := File t Ensemble.empty_vcf]> fs)
    | _ => Ok fs
    end;
  multisample_vcf_name := merged_name;
  snpeff_vcf_name := λ f, Some (f +:+ "-effects.vcf");
  validate_summary := λ _ _, None;
  get_analysis_intervals := λ _, None;
  abspath := λ p, Py.path_join "/" p;
  yaml_safe_dump := λ _ _ _, "ensemble: {}";
  splitext_plus := λ p,
    let root := Ensemble.splitext_root p in
    (root, String.substring (String.length root) (String.length p) p);
  tx_name := λ p, Py.path_join "tx" p
|}.

Definition w_empty : world := World ∅ 0 [].

Definition call_of (caller path : string) : variant :=
  Variant caller (Some path) None None None.

Definition mk_sample (n : string) (tag : option string) (vs : list variant) : sample :=
  Sample ["1"; n] (Some (Metadata tag None)) vs None (Some (EnsembleCfg "{}" None))
         "work" "ref.fa".

(** Samples A and B of family "fam1" and a sample C without batch. *)
Definition A : sample :=
  mk_sample "A" (Some "fam1") [call_of "gatk" "A-gatk.vcf"; call_of "freebayes" "A-fb.vcf"].
Definition B : sample :=
  mk_sample "B" (Some "fam1") [call_of "gatk" "B-gatk.vcf"; call_of "freebayes" "B-fb.vcf"].
Definition C : sample :=
  mk_sample "C" None [call_of "gatk" "C-gatk.vcf"; call_of "freebayes" "C-fb.vcf"].

(** A sample without batch whose own name is "fam1". *)
Definition F : sample :=
  mk_sample "fam1" None [call_of "gatk" "F-gatk.vcf"; call_of "freebayes" "F-fb.vcf"].

(** A member of "fam1" on which a third caller was run as well. *)
Definition X : sample :=
  mk_sample "X" (Some "fam1")
    [call_of "gatk" "X-gatk.vcf"; call_of "freebayes" "X-fb.vcf";
     call_of "mutect" "X-mutect.vcf"].

(** Tumour samples: one whose second result is not a VCF path, one whose
    first result is not. *)
Definition tumor_sample (n : string) (vs : list variant) : sample :=
  Sample ["1"; n] (Some (Metadata (Some "pair1") (Some "Tumor"))) vs None
         (Some (EnsembleCfg "{}" None)) "work" "ref.fa".
Definition T : sample :=
  tumor_sample "T" [call_of "gatk" "T-gatk.vcf"; call_of "strelka" "T-strelka.bcf"].
Definition N : sample :=
  Sample ["1"; "N"] (Some (Metadata (Some "pair1") (Some "normal")))
         [call_of "gatk" "N-gatk.vcf"; call_of "strelka" "N-strelka.bcf"] None
         (Some (EnsembleCfg "{}" None)) "work" "ref.fa".

(** A sample with a single call result. *)
Definition S1 : sample := mk_sample "S1" (Some "fam1") [call_of "gatk" "S1-gatk.vcf"].

(** The dictionaries of A, S1 and C as objects 0, 1 and 2. *)
Definition h0 : store := λ r,
  match r with
  | O => A
  | 1%nat => S1
  | _ => C
  end.

(** The parallel step on these three objects, and the dictionaries as
    it leaves them. *)
Definition run0 : res (list (list nat) * store) * world :=
  Ensemble.combine_calls_parallel h0 [[0%nat]; [1%nat]; [2%nat]]
    (Ensemble.run_sequential E0) w_empty.
Definition h0_after : store :=
  match run0.1 with
  | Ok (_, h') => h'
  | Raise _ => h0
  end.

(** A consensus output older than one of its inputs. *)
Definition w_stale : world :=
  World {[ "work/ensemble/b1/b1-ensemble.vcf" := File 1 Ensemble.empty_vcf;
           "b1-gatk.vcf" := File 5 Ensemble.empty_vcf;
           "b1-freebayes.vcf" := File 0 Ensemble.empty_vcf ]} 6 [].

(** The result files of A and B, all without records. *)
Definition w_headers : world :=
  World {[ "A-gatk.vcf" := File 0 Ensemble.empty_vcf;
           "A-fb.vcf" := File 1 Ensemble.empty_vcf;
           "B-gatk.vcf" := File 2 Ensemble.empty_vcf;
           "B-fb.vcf" := File 3 Ensemble.empty_vcf ]} 4 [].

(** A world holding a BED file with two overlapping bins. *)
Definition w_bed : world :=
  World {[ "in/t.bed" := File 3 (bed_line "chr1" "100" "200"
                                 +:+ bed_line "chr1" "150" "300") ]} 4 [].

(** A world holding one file without content. *)
Definition w_blank_bed : world :=
  World {[ "in/t.bed" := File 3 "" ]} 4 [].

End Example.

(** ** Statements of the specification, in its own words *)

Module Spec.

(** An interval record as the resolver reads it off a line. *)
Definition interval_of (line : string) : res (string * Z * Z) :=
  '(c, s, e) ← PureCN.fields3 line;
  s' ← Py.int s;
  e' ← Py.int e;
  mret (c, s', e').

Definition well_formed (line : string) : Prop :=
  ∃ r, interval_of line = Ok r.

(** "on the same chromosome as pending AND pending.end > incoming.start" *)
Definition overlap (pending incoming : string) : bool :=
  match interval_of pending, interval_of incoming with
  | Ok (pc, _, pe), Ok (ic, is_, _) => String.eqb pc ic && (pe >? is_)
  | _, _ => false
  end.

(** "a single left-to-right scan holding one pending record": an
    overlapped pending record is dropped and replaced, otherwise it is
    emitted and the incoming record becomes pending; "the final pending
    record is always emitted". *)
Fixpoint resolve_from (pending : string) (incoming : list string) : list string :=
  match incoming with
  | [] => [pending]
  | x :: rest =>
      if overlap pending x then resolve_from x rest
      else pending :: resolve_from x rest
  end.

Definition resolve (records : list string) : list string :=
  match records with
  | [] => []
  | x :: rest => resolve_from x rest
  end.

(** The batch identifier of a sample: "its batch-membership tag; if
    present, ...; if absent, the Sample's own unique identity". *)
Definition key_of (data : sample) : res string :=
  match Ensemble.batch_tag data with
  | Some (String c b) => Ok (String c b)
  | _ => Ensemble.name_last data
  end.

Definition keyed (k : string) (data : sample) : bool :=
  match key_of data with
  | Ok k' => String.eqb k' k
  | Raise _ => false
  end.

Definition untagged (data : sample) : bool :=
  negb (Py.truthy (Ensemble.batch_tag data)).

(** The samples of a collection that qualify and belong to batch [k],
    in input order. *)
Definition members {A : Type} (view : A → sample) (check : A → bool) (k : string)
    (datas : list A) : list A :=
  List.filter (λ d, check d && keyed k (view d)) datas.

(** The samples that do not qualify, each wrapped as the pipeline passes
    samples around, in input order. *)
Definition residual {A : Type} (check : A → bool) (datas : list A) : list (list A) :=
  map (λ d, [d]) (List.filter (λ d, negb (check d)) datas).

(** A sample after ensemble results were put in front of its call
    results. *)
Definition with_results (cs : list variant) (d : sample) : sample :=
  Sample (name d) (metadata d) (cs ++ variants d) (work_bam d)
         (algorithm_ensemble d) (dirs_work d) (sam_ref d).

(** What the loop of lines 60-63 keeps true of the dictionaries: each
    is the one it was with results put in front, and is the one it was
    when it does not qualify. *)
Definition only_results_added (h h' : store) : Prop :=
  ∀ r, (∃ cs, h' r = with_results cs (h r))
       ∧ (Ensemble._has_ensemble (h r) = false → h' r = h r).

(** The call results of caller [c] across the samples of a batch, in
    the order in which they are visited. *)
Definition entries (c : string) (samples : list sample) : list variant :=
  List.filter (λ v, String.eqb (variantcaller v) c) (concat (map variants samples)).

(** "For a caller with exactly one contributing result file ..., the
    representative is that file itself"; otherwise it is the merged
    multi-sample file. *)
Definition representative_of (E : externals) (batch_id : string) (s0 : sample)
    (c : string) (fs : list fref) : fref :=
  match fs with
  | [f] => f
  | _ => Some (multisample_vcf_name E fs batch_id c s0)
  end.

(** The merges asked for, one for each listed caller that does not
    have exactly one contributing file. *)
Definition merge_events (batch_id : string) (contrib : string → list fref)
    (callers : list string) : list ext :=
  concat (map (λ c, match contrib c with
                    | [_] => []
                    | fs => [MultisampleVcf fs batch_id c]
                    end) callers).

Definition is_select (e : ext) : Prop :=
  match e with
  | SelectSample _ _ _ _ => True
  | _ => False
  end.

(** "every distinct caller name present across the batch", in first-seen
    order. *)
Definition callers_across (samples : list sample) : list string :=
  remove_dups (map variantcaller (concat (map variants samples))).

(** The merger as the specification words it: one
    representative for each distinct caller of the batch, and the very
    file of a caller that contributes exactly one. *)
Definition one_representative_per_caller (E : externals) (samples : list sample)
    (batch_id : string) (w : world) : Prop :=
  ∀ caller_names vrn_files bams w',
    Ensemble._organize_variants E samples batch_id w
    = (Ok (caller_names, vrn_files, bams), w') →
    caller_names = callers_across samples
    ∧ length vrn_files = length caller_names
    ∧ ∀ c v, entries c samples = [v] → vrn_file v ∈ vrn_files.


(** The stage marker for the consensus stage as worded: "if any
    declared input is newer than the existing output, the producer is
    re-invoked". *)
Definition newer_input_reruns (E : externals) (batch_id : string)
    (vrn_files : list fref) (config_file base_dir ref_file : string) (w : world) : Prop :=
  let out_vcf_file := Py.path_join base_dir (batch_id +:+ "-ensemble.vcf") in
  (∃ p fi fo, Some p ∈ vrn_files ∧ files w !! p = Some fi
              ∧ files w !! out_vcf_file = Some fo ∧ mtime fo < mtime fi) →
  VariantEnsemble vrn_files out_vcf_file ref_file config_file base_dir
  ∈ called (Ensemble._run_ensemble E batch_id vrn_files config_file base_dir ref_file w).2.

(** The degenerate case as worded: when no contributing file holds a
    variant record, neither before nor after the merger, [combine_calls]
    "invokes no external tool at all". *)
Definition all_empty_calls_nothing (E : externals) (batch_id : string)
    (samples : list sample) (data : sample) (w : world) : Prop :=
  (∀ d v, d ∈ samples → v ∈ variants d →
     Ensemble.vcf_has_variants (vrn_file v) w = (Ok false, w)) →
  (∀ r w1 f, Ensemble._organize_variants E samples batch_id w = (Ok r, w1) →
     f ∈ r.1.2 → Ensemble.vcf_has_variants f w1 = (Ok false, w1)) →
  called (Ensemble.combine_calls E batch_id samples data w).2 = called w.

(** A computation that calls no collaborator. *)
Definition silent {A : Type} (m : M A) : Prop :=
  ∀ w, called (m w).2 = called w.

(** *** The merger, call result by call result *)

(** The call results of a batch, each with its sample, in the order in
    which they are visited. *)
Definition visited (samples : list sample) : list (sample * variant) :=
  concat (map (λ d, map (pair d) (variants d)) samples).

(** The visited call results of caller [c]. *)
Definition visited_of (c : string) (samples : list sample) : list (sample * variant) :=
  List.filter (λ p, String.eqb (variantcaller p.2) c) (visited samples).

(** The "suffix-tagged" name of the filtered file, "derived
    deterministically from the original file name": the path with ".vcf"
    replaced when it has one; otherwise the name derived last with the
    suffix, and none when no name was derived before. *)
Definition filtered_name (last : option string) (f : string) : option string :=
  if Py.contains ".vcf" f
  then Some (Py.replace ".vcf" "_tumorOnly_noFilteredCalls.vcf" f)
  else (λ t, t +:+ "_tumorOnly_noFilteredCalls.vcf.gz") <$> last.

(** What one call result brings to the merge: the caller it counts for,
    the file, and the selection asked for to obtain it. *)
Record contribution : Type := Contribution {
  by_caller : string;
  contributed_file : fref;
  selection : list ext
}.

(** A sample of tumour phenotype contributes the filtered file "in place
    of the original"; "a normal-phenotype Sample's files are never
    filtered this way".  The second component is the name derived last. *)
Definition contribute (last : option string) (d : sample) (v : variant)
  : option (contribution * option string) :=
  if Ensemble.is_tumor d then
    f ← vrn_file v;
    t ← filtered_name last f;
    sn ← name d !! 1%nat;
    Some (Contribution (variantcaller v) (Some t) [SelectSample f sn t "PASS,."], Some t)
  else Some (Contribution (variantcaller v) (vrn_file v) [], last).

Fixpoint walk (last : option string) (l : list (sample * variant))
  : option (list contribution * option string) :=
  match l with
  | [] => Some ([], last)
  | (d, v) :: r =>
      match contribute last d v with
      | Some (x, last') =>
          match walk last' r with
          | Some (xs, last'') => Some (x :: xs, last'')
          | None => None
          end
      | None => None
      end
  end.

(** The contributions of a batch, in visiting order. *)
Definition contributions (samples : list sample) : list contribution :=
  match walk None (visited samples) with
  | Some (xs, _) => xs
  | None => []
  end.

Definition files_of (c : string) (xs : list contribution) : list fref :=
  map contributed_file (List.filter (λ x, String.eqb (by_caller x) c) xs).

(** The files caller [c] contributes across the batch. *)
Definition contributed (samples : list sample) (c : string) : list fref :=
  files_of c (contributions samples).

(** The selections asked for across the batch. *)
Definition selections (samples : list sample) : list ext :=
  concat (map selection (contributions samples)).

(** How the file contributed for a visited call result relates to it:
    the result file itself for a sample that is no tumour; for a tumour
    sample the filtered file, whose name is the path with ".vcf" replaced
    when the path has one. *)
Definition contributes (p : sample * variant) (f : fref) : Prop :=
  (Ensemble.is_tumor p.1 = false → f = vrn_file p.2)
  ∧ (Ensemble.is_tumor p.1 = true →
     ∃ g t, vrn_file p.2 = Some g ∧ f = Some t
            ∧ (Py.contains ".vcf" g = true →
               t = Py.replace ".vcf" "_tumorOnly_noFilteredCalls.vcf" g)).

(** How a contribution is obtained from the visited call result it
    stands for: without selection for a sample that is no tumour, by the
    selection of the second name of the sample from the result file, kept
    to "PASS" and missing filters, for a tumour sample. *)
Definition obtained (p : sample * variant) (x : contribution) : Prop :=
  by_caller x = variantcaller p.2
  ∧ contributes p (contributed_file x)
  ∧ (Ensemble.is_tumor p.1 = false → selection x = [])
  ∧ (Ensemble.is_tumor p.1 = true →
     ∃ g t sn, vrn_file p.2 = Some g ∧ contributed_file x = Some t
               ∧ name p.1 !! 1%nat = Some sn
               ∧ selection x = [SelectSample g sn t "PASS,."]).


End Spec.


(** ** Further properties: the notions they are stated with *)

Module Props.

(** Consecutive lines on the same chromosome come with starts that do
    not decrease. *)
Fixpoint starts_sorted (l : list string) : Prop :=
  match l with
  | x :: (y :: _) as r =>
      match Spec.interval_of x, Spec.interval_of y with
      | Ok (cx, sx, _), Ok (cy, sy, _) => cx = cy → sx ≤ sy
      | _, _ => True
      end ∧ starts_sorted r
  | _ => True
  end.

(** No line overlaps the line that follows it. *)
Fixpoint no_adjacent_overlap (l : list string) : Prop :=
  match l with
  | x :: (y :: _) as r => Spec.overlap x y = false ∧ no_adjacent_overlap r
  | _ => True
  end.

(** The first of two records ends where the second starts, or before,
    when they are on one chromosome. *)
Definition clear_of (x y : string) : Prop :=
  match Spec.interval_of x, Spec.interval_of y with
  | Ok (cx, _, ex), Ok (cy, sy, _) => cx = cy → ex ≤ sy
  | _, _ => True
  end.

(** The pending line of a scan state, as a list. *)
Definition pending (st : PureCN.scan_state) : list string :=
  match PureCN.prev_line st with
  | Some p => [p]
  | None => []
  end.

(** An untagged qualifying sample whose identity is already taken: by a
    key counted in [K], or as the key of a qualifying sample that comes
    before it. *)
Definition collision {A : Type} (view : A → sample) (check : A → bool)
    (K : string → Prop) (datas : list A) : Prop :=
  ∃ pre d post n,
    datas = pre ++ d :: post
    ∧ check d = true ∧ Spec.untagged (view d) = true
    ∧ Ensemble.name_last (view d) = Ok n
    ∧ (K n ∨ ∃ d', d' ∈ pre ∧ check d' = true ∧ Spec.keyed n (view d') = true).

(** What [run_parallel] is handed for one batch: members, the first of
    them as [data], all of them qualifying. *)
Definition batch_argument_ok (groups : gmap string (list nat))
    (a : string * list sample * sample) : Prop :=
  is_Some (groups !! a.1.1)
  ∧ head a.1.2 = Some a.2
  ∧ Forall (λ d, Ensemble._has_ensemble d = true) a.1.2
  ∧ is_Some (algorithm_ensemble a.2).

(** The references appended to [out] by the loop of lines 60-63: for
    each element of [processed], in order, the members of its batch. *)
Definition processed_refs (groups : gmap string (list nat))
    (processed : list (string * variant)) : list (list nat) :=
  concat (map (λ p, map (λ r, [r]) (default [] (groups !! p.1))) processed).

(** The members of all groups, group after group. *)
Definition grouped {A : Type} (g : gmap string (list A)) : list A :=
  concat (map snd (map_to_list g)).

(** A [run_parallel] that answers with one result for each batch it was
    given, in any order. *)
Definition reports_each_batch_once
    (run_parallel : string → list (string * list sample * sample)
                    → M (list (string * variant))) : Prop :=
  ∀ args w processed w1,
    run_parallel "combine_calls" args w = (Ok processed, w1) →
    map fst processed ≡ₚ map (λ a, a.1.1) args.

(** Run from [w], the computation calls collaborators only for events
    in [P]. *)
Definition emits {A : Type} (P : ext → Prop) (m : M A) (w : world) : Prop :=
  ∃ evs, called (m w).2 = called w ++ evs ∧ Forall P evs.

Definition only {A : Type} (P : ext → Prop) (m : M A) : Prop :=
  ∀ w, emits P m w.

(** Which of the two branches of line 35 the configuration of a sample
    selects: [Some true] with a "caller" entry, [Some false] without,
    [None] when "ensemble" is not configured at all. *)
Definition strategy_of (data : sample) : option bool :=
  ens ← algorithm_ensemble data; Some (bool_decide (is_Some (ens_caller ens))).

(** The collaborator calls that go with a strategy. *)
Definition strategy_event (strategy : option bool) (e : ext) : Prop :=
  match e with
  | SelectSample _ _ _ _ | MultisampleVcf _ _ _ | CompareToRm _ _ => True
  | VariantEnsemble _ _ _ _ _ => strategy = Some false
  | RecallEnsemble _ _ _ _ _ | SnpeffEffects _ => strategy = Some true
  end.

End Props.

(** ** Further inputs on which the results are exercised *)

Module Cases.

(** A [run_parallel] that touches nothing and answers with the same
    result for every batch. *)
Definition echo (c : variant) (fn : string) (args : list (string * list sample * sample))
  : M (list (string * variant)) :=
  mret (map (λ a, (a.1.1, c)) args).

Definition echo_run : res (list (list nat) * store) * world :=
  Ensemble.combine_calls_parallel Example.h0 [[0%nat]; [1%nat]; [2%nat]]
    (echo (Example.call_of "ensemble" "e.vcf")) Example.w_empty.

Definition echo_out : list (list nat) :=
  match echo_run.1 with Ok (out, _) => out | Raise _ => [] end.

Definition echo_store : store :=
  match echo_run.1 with Ok (_, h) => h | Raise _ => Example.h0 end.

(** A work directory in which the ensemble tool left its combined
    calls and callable regions, but no consensus output. *)
Definition w_prep : world :=
  World {[ "work/ensemble/b1/b1-ensemble-work/prep/b1-cfilter.vcf"
             := File 1 Ensemble.empty_vcf;
           "work/ensemble/b1/b1-ensemble-work/prep/b1-multicombine.bed"
             := File 2 (bed_line "chr1" "100" "200") ]} 3 [].

(** A configuration that names a caller for the recall strategy. *)
Definition with_caller (d : sample) : sample :=
  Sample (name d) (metadata d) (variants d) (work_bam d)
         (Some (EnsembleCfg "{}" (Some "freebayes"))) (dirs_work d) (sam_ref d).

(** A sample with an alignment file. *)
Definition with_bam (b : string) (d : sample) : sample :=
  Sample (name d) (metadata d) (variants d) (Some b)
         (algorithm_ensemble d) (dirs_work d) (sam_ref d).

End Cases.

(** ** Output files of PureCN ([purecn.py], [_get_purecn_files]) *)

Module PureCNOut.

(** A value of the dictionary [out]: a path, or the dictionary of plots
    kept under "plot". *)
Inductive entry : Type :=
| Path (p : string)
| Plots (m : gmap string string).

Fixpoint fold_res {A S : Type} (f : S → A → res S) (s : S) (l : list A) : res S :=
  match l with
  | [] => Ok s
  | x :: r => s' ← f s x; fold_res f s' r
  end.

(** [out["plot"][plot] = cur_file] *)
Definition set_plot (out : gmap string entry) (plot cur_file : string)
  : res (gmap string entry) :=
  match out !! "plot" with
  | Some (Plots m) => Ok (<["plot" := Plots (<[plot := cur_file]> m)]> out)
  | Some (Path _) => Raise TypeError
  | None => Raise KeyError
  end.

Definition plot_names : list string :=
  ["chromosomes"; "local_optima"; "segmentation"; "summary"].

Definition keyed_exts : list (string * string) :=
  [("summary", ".csv"); ("dnacopy", "_dnacopy.seg"); ("genes", "_genes.csv");
   ("log", ".log"); ("loh", "_loh.csv"); ("rds", ".rds");
   ("variants", "_variants.csv")].

(** Lines 163-166: the file of a plot. *)
Definition plot_file (out_base plot : string) : string :=
  if String.eqb plot "summary" then out_base +:+ ".pdf"
  else out_base +:+ "_" +:+ plot +:+ ".pdf".

(** Body of the first loop, lines 162-168. *)
Definition plot_step (out_base : string) (st : gmap string entry * list string)
    (plot : string) : res (gmap string entry * list string) :=
  let '(out, all_files) := st in
  let cur_file := plot_file out_base plot in
  out' ← set_plot out plot cur_file;
  mret (out', all_files ++ [FS.basename cur_file]).

(** Body of the second loop, lines 169-174. *)
Definition key_step (out_base : string) (st : gmap string entry * list string)
    (ke : string * string) : gmap string entry * list string :=
  let '(out, all_files) := st in
  let '(key, ext) := ke in
  let cur_file := out_base +:+ ext in
  (<[key := Path cur_file]> out, all_files ++ [FS.basename cur_file]).

(** [_get_purecn_files(paired, work_dir)], with the name that
    [dd.get_sample_name(paired.tumor_data)] gives as [sample_name]. *)
Definition _get_purecn_files (sample_name work_dir : string)
  : res (string * gmap string entry * list string) :=
  let out_base := Py.path_join work_dir (sample_name +:+ "-purecn") in
  st ← fold_res (plot_step out_base) ({[ "plot" := Plots ∅ ]}, []) plot_names;
  let '(out, all_files) := fold_left (key_step out_base) keyed_exts st in
  mret (out_base, out, all_files).

Fixpoint slash_free (s : string) : bool :=
  match s with
  | EmptyString => true
  | String c r => negb (Ascii.eqb c "/") && slash_free r
  end.

(** The endings of the file names of [all_files], in order. *)
Definition suffixes : list string :=
  map (λ plot, plot_file "" plot) plot_names ++ map snd keyed_exts.

(** The paths a dictionary [out] holds, at the top and under "plot". *)
Definition holds (out : gmap string entry) (p : string) : Prop :=
  (∃ key, out !! key = Some (Path p))
  ∨ (∃ m plot, out !! "plot" = Some (Plots m) ∧ m !! plot = Some p).

End PureCNOut.
(** ** Results on the interval overlap filter *)

Section OverlapFilter.

Import PureCN.

Lemma interval_fields line r :
  Spec.interval_of line = Ok r →
  ∃ s e, fields3 line = Ok (r.1.1, s, e) ∧ Py.int s = Ok r.1.2 ∧ Py.int e = Ok r.2.
Proof.
  unfold Spec.interval_of. destruct (fields3 line) as [[[c s] e]|x]; [|discriminate].
  cbn. destruct (Py.int s) as [s'|] eqn:Hs; [|discriminate]. cbn.
  destruct (Py.int e) as [e'|] eqn:He; [|discriminate]. cbn.
  intros [= <-]. by exists s, e.
Qed.

Lemma well_formed_truthy line :
  Spec.well_formed line → Py.truthy (Some line) = true.
Proof.
  intros [r Hr]. destruct line; [|done].
  by vm_compute in Hr.
Qed.

Lemma overlaps_spec p line :
  Spec.well_formed p → Spec.well_formed line →
  overlaps p line = Ok (Spec.overlap p line).
Proof.
  intros [rp Hp] [rl Hl]. unfold Spec.overlap. rewrite Hp, Hl.
  apply interval_fields in Hp as (ps & pe & Hpf & _ & Hpe).
  apply interval_fields in Hl as (ls & le & Hlf & Hls & _).
  destruct rp as [[pc pst] pen], rl as [[lc lst] len]; cbn in *.
  unfold overlaps. rewrite Hpf. cbn. rewrite Hlf. cbn.
  destruct (String.eqb pc lc); [|done].
  rewrite Hpe. cbn. rewrite Hls. done.
Qed.

Lemma scan_loop_pending rest : ∀ p out,
  Spec.well_formed p → Forall Spec.well_formed rest →
  scan_loop (ScanState (Some p) out) rest ≫= finish
  = Ok (out ++ Spec.resolve_from p rest).
Proof.
  induction rest as [|x rest IH]; intros p out Hp Hrest.
  - done.
  - inversion Hrest as [|? ? Hx Hr]; subst.
    cbn [scan_loop]. unfold scan_step. cbn [prev_line written].
    rewrite (well_formed_truthy p Hp), (overlaps_spec p x Hp Hx).
    cbn [Spec.resolve_from]. destruct (Spec.overlap p x); cbn.
    + apply (IH x out Hx Hr).
    + change (scan_loop (ScanState (Some x) (out ++ [p])) rest ≫= finish
              = Ok (out ++ p :: Spec.resolve_from x rest)).
      rewrite (IH x (out ++ [p]) Hx Hr). by rewrite <- app_assoc.
Qed.

End OverlapFilter.

(** C4.  On every non-empty sequence of well-formed interval lines the
    loop of [_remove_overlaps] writes exactly what the one-pending-record
    scan of the specification emits: a pending record overlapped by the
    incoming one on the same chromosome is dropped and replaced, any other
    pending record is emitted, and the last pending record is always
    emitted.  The records need not be sorted for this.  On
    (chr1,100,200), (chr1,150,300), (chr1,300,400) the output is
    (chr1,150,300), (chr1,300,400). *)
Theorem remove_overlaps_is_pending_scan :
  (∀ lines : list string,
     lines ≠ [] → Forall Spec.well_formed lines →
     PureCN.remove_overlaps_lines lines = Ok (Spec.resolve lines))
  ∧ PureCN.remove_overlaps_lines
      [bed_line "chr1" "100" "200"; bed_line "chr1" "150" "300";
       bed_line "chr1" "300" "400"]
    = Ok [bed_line "chr1" "150" "300"; bed_line "chr1" "300" "400"].
Proof.
  split; [|by vm_compute].
  intros [|x rest] Hne Hwf; [done|].
  inversion Hwf as [|? ? Hx Hr]; subst.
  unfold PureCN.remove_overlaps_lines. cbn [PureCN.scan_loop].
  unfold PureCN.scan_step. cbn.
  apply (scan_loop_pending rest x [] Hx Hr).
Qed.

Lemma remove_overlaps_is_pending_scan_witness :
  PureCN.remove_overlaps_lines
    [bed_line "chr1" "100" "200"; bed_line "chr2" "150" "300"]
  = Ok (Spec.resolve [bed_line "chr1" "100" "200"; bed_line "chr2" "150" "300"]).
Proof.
  apply (proj1 remove_overlaps_is_pending_scan).
  - discriminate.
  - repeat constructor; eexists; vm_compute; reflexivity.
Defined.

(** C8.  On an input without lines the loop of [_remove_overlaps] never
    binds a pending line, and the write after the loop is
    [out_handle.write(None)]: no empty output is produced, the filter
    raises [TypeError].  So does the file-level function on a file without
    content, whenever its stage is not skipped. *)
Theorem remove_overlaps_empty_input_fails :
  PureCN.remove_overlaps_lines [] = Raise TypeError
  ∧ ∀ (E : externals) (in_file out_dir : string) (w : world) (f : file),
      files w !! in_file = Some f → content f = "" →
      FS.file_uptodate w (PureCN.nooverlaps_name E in_file out_dir) in_file = false →
      (PureCN._remove_overlaps E in_file out_dir w).1 = Raise TypeError.
Proof.
  split; [done|].
  intros E in_file out_dir w f Hf Hc Hup.
  unfold PureCN._remove_overlaps, mbind, M_bind, gets. cbn beta iota.
  rewrite Hup. unfold FS.file_transaction, mbind, M_bind, FS.read.
  rewrite Hf, Hc. done.
Qed.

Lemma remove_overlaps_empty_input_fails_witness :
  (PureCN._remove_overlaps Example.E0 "in/t.bed" "out" Example.w_blank_bed).1
  = Raise TypeError.
Proof.
  apply (proj2 remove_overlaps_empty_input_fails Example.E0 "in/t.bed" "out"
           Example.w_blank_bed (File 3 "")); by vm_compute.
Defined.

(** ** Results on the batch grouper *)

Section Grouping.

Import Ensemble.

Context {A : Type} (view : A → sample) (check : A → bool).

Lemma keyed_tag d b k :
  Py.truthy (Some b) = true → batch_tag d = Some b →
  Spec.keyed k d = String.eqb b k.
Proof.
  unfold Spec.keyed, Spec.key_of. intros Ht Hb. rewrite Hb in *.
  destruct b; [discriminate Ht|done].
Qed.

Lemma keyed_name d n k :
  Py.truthy (batch_tag d) = false → name_last d = Ok n →
  Spec.keyed k d = String.eqb n k.
Proof.
  unfold Spec.keyed, Spec.key_of. intros Ht Hn. rewrite Hn.
  destruct (batch_tag d) as [[|]|]; [done|discriminate Ht|done].
Qed.

Lemma group_loop_inv l : ∀ g e g' e',
  group_loop view check (g, e) l = Ok (g', e') →
  e' = e ++ Spec.residual check l
  ∧ (∀ k, default [] (g' !! k) = default [] (g !! k) ++ Spec.members view check k l)
  ∧ (∀ k, is_Some (g !! k) → is_Some (g' !! k)).
Proof.
  induction l as [|d l IH]; intros g e g' e' H.
  - injection H as <- <-. unfold Spec.residual, Spec.members. cbn.
    split; [by rewrite app_nil_r|]. split; [|done].
    intros k. by rewrite app_nil_r.
  - cbn [group_loop] in H. unfold group_step in H.
    unfold Spec.residual, Spec.members in *. cbn [List.filter].
    destruct (check d) eqn:Hc; cbn [negb andb].
    + destruct (Py.truthy (batch_tag (view d))) eqn:Ht.
      * destruct (batch_tag (view d)) as [b|] eqn:Hb; [|done].
        apply IH in H as (-> & Hm & Hs). split; [done|]. split.
        -- intros k. rewrite Hm, (keyed_tag (view d) b k Ht Hb).
           destruct (String.eqb_spec b k) as [->|Hne].
           ++ rewrite lookup_insert_eq. cbn. by rewrite <- app_assoc.
           ++ by rewrite lookup_insert_ne.
        -- intros k Hk. apply Hs. destruct (decide (b = k)) as [->|Hne].
           ++ rewrite lookup_insert_eq. eauto.
           ++ by rewrite lookup_insert_ne.
      * destruct (name_last (view d)) as [n|] eqn:Hn; [|done]. cbn in H.
        destruct (bool_decide (is_Some (g !! n))) eqn:Hin; [done|].
        apply bool_decide_eq_false in Hin.
        assert (g !! n = None) as Hnone.
        { destruct (g !! n) eqn:Hg; [|done]. exfalso. apply Hin. eauto. }
        apply IH in H as (-> & Hm & Hs). split; [done|]. split.
        -- intros k. rewrite Hm, (keyed_name (view d) n k Ht Hn).
           destruct (String.eqb_spec n k) as [->|Hne].
           ++ rewrite lookup_insert_eq, Hnone. done.
           ++ by rewrite lookup_insert_ne.
        -- intros k Hk. apply Hs. destruct (decide (n = k)) as [->|Hne].
           ++ rewrite lookup_insert_eq. eauto.
           ++ by rewrite lookup_insert_ne.
    + apply IH in H as (-> & Hm & Hs). split.
      * cbn. by rewrite <- app_assoc.
      * done.
Qed.



Lemma filter_elem {T : Type} (f : T → bool) (l : list T) (x : T) :
  x ∈ l → f x = true → x ∈ List.filter f l.
Proof.
  intros Hx Hf. apply list_elem_of_In, filter_In. split; [|done].
  by apply list_elem_of_In.
Qed.

Lemma elem_filter {T : Type} (f : T → bool) (l : list T) (x : T) :
  x ∈ List.filter f l → x ∈ l ∧ f x = true.
Proof.
  intros Hx. apply list_elem_of_In, filter_In in Hx as [Hx Hf].
  split; [|done]. by apply list_elem_of_In.
Qed.

Lemma mapM_first_heads (samples : list (list A)) datas :
  mapM_res first samples = Ok datas →
  Forall2 (λ x d, head x = Some d) samples datas.
Proof.
  revert datas. induction samples as [|x r IH]; intros datas H.
  - injection H as <-. constructor.
  - cbn in H. destruct x as [|d x]; [done|]. cbn in H.
    destruct (mapM_res first r) as [ds|]; [|done]. cbn in H.
    injection H as <-. constructor; [done|]. by apply IH.
Qed.





Lemma groups_qualify l g' e' k xs d :
  group_loop view check (∅, []) l = Ok (g', e') →
  g' !! k = Some xs → d ∈ xs → d ∈ l ∧ check d = true.
Proof.
  intros H Hk Hd.
  pose proof (group_loop_inv l _ _ _ _ H) as (_ & Hm & _).
  specialize (Hm k). rewrite Hk, lookup_empty in Hm. cbn in Hm. subst xs.
  apply elem_filter in Hd as [Hd Hc]. split; [done|].
  by apply andb_true_iff in Hc as [Hc _].
Qed.

Lemma residual_elem l d :
  d ∈ l → check d = false → [d] ∈ Spec.residual check l.
Proof.
  intros Hd Hc. unfold Spec.residual.
  apply (list_elem_of_fmap_2 (λ d, [d])). apply filter_elem; [done|]. by rewrite Hc.
Qed.

End Grouping.




(** C6.  The collision of an explicit batch name with the identity of an
    untagged sample is noticed only when the tagged sample comes first:
    with A tagged "fam1" before the untagged sample named "fam1" the
    assertion of line 83 fails, in the other order the two samples end up
    in one group and the function returns. *)
Theorem collision_noticed_in_one_order_only :
  Ensemble._group_by_batches id [[Example.A]; [Example.F]] Ensemble._has_ensemble
  = Raise AssertionError
  ∧ Ensemble._group_by_batches id [[Example.F]; [Example.A]] Ensemble._has_ensemble
    = Ok ({[ "fam1" := [Example.F; Example.A] ]}, []).
Proof. split; by vm_compute. Qed.

(** ** Results on eligibility and pass-through *)

Lemma has_ensemble_iff (d : sample) :
  Ensemble._has_ensemble d = true ↔
  (1 < length (variants d))%nat
  ∧ is_Some (algorithm_ensemble d)
  ∧ ∃ x, x ∈ variants d ∧ (vrn_file x ≠ None ∨ vrn_file_batch x ≠ None).
Proof.
  unfold Ensemble._has_ensemble. split.
  - intros H. apply andb_true_iff in H as [H1 H2].
    destruct (bool_decide (1 < length (variants d))%nat) eqn:Hl; [|done].
    destruct (existsb _ (variants d)) eqn:Hex; [|done].
    apply bool_decide_eq_true in Hl, H2.
    apply existsb_exists in Hex as (x & Hx & Hv).
    split; [done|]. split; [done|]. exists x. split; [by apply list_elem_of_In|].
    apply orb_true_iff in Hv as [Hv|Hv]; apply bool_decide_eq_true in Hv; auto.
  - intros (Hl & Hens & x & Hx & Hv).
    rewrite (bool_decide_eq_true_2 _ Hl), (bool_decide_eq_true_2 _ Hens).
    assert (existsb (λ x, bool_decide (vrn_file x ≠ None)
                          || bool_decide (vrn_file_batch x ≠ None)) (variants d)
            = true) as ->; [|done].
    apply existsb_exists. exists x. split; [by apply list_elem_of_In|].
    apply orb_true_iff.
    destruct Hv as [Hv|Hv]; [left|right]; by apply bool_decide_eq_true_2.
Qed.

(** C10.  A sample qualifies exactly when it has more than one call
    result, has "ensemble" configured, and one of its call results refers
    to a result file or a batch file.  Under this predicate a sample with
    at most one call result is in the residual list and in no group. *)
Theorem single_call_result_passes_through :
  (∀ d : sample,
     Ensemble._has_ensemble d = true ↔
     (1 < length (variants d))%nat
     ∧ is_Some (algorithm_ensemble d)
     ∧ ∃ x, x ∈ variants d ∧ (vrn_file x ≠ None ∨ vrn_file_batch x ≠ None))
  ∧ (∀ (A : Type) (view : A → sample) (samples : list (list A)) groups extras,
       Ensemble._group_by_batches view samples (λ d, Ensemble._has_ensemble (view d))
       = Ok (groups, extras) →
       ∀ x d, x ∈ samples → head x = Some d → (length (variants (view d)) ≤ 1)%nat →
         [d] ∈ extras ∧ ∀ k xs, groups !! k = Some xs → d ∉ xs).
Proof.
  split; [apply has_ensemble_iff|].
  intros A view samples groups extras H x d Hx Hhd Hlen.
  unfold Ensemble._group_by_batches in H.
  destruct (Ensemble.mapM_res Ensemble.first samples) as [datas|] eqn:Hd; [|done].
  cbn in H.
  assert (Ensemble._has_ensemble (view d) = false) as Hno.
  { destruct (Ensemble._has_ensemble (view d)) eqn:Hq; [|done].
    apply has_ensemble_iff in Hq as [Hq _]. lia. }
  assert (d ∈ datas) as Hin.
  { apply mapM_first_heads in Hd.
    apply list_elem_of_lookup in Hx as [i Hi].
    destruct (Forall2_lookup_l _ _ _ _ _ Hd Hi) as (d' & Hi' & Hh).
    rewrite Hhd in Hh. injection Hh as <-. by eapply list_elem_of_lookup_2. }
  pose proof (group_loop_inv view _ datas _ _ _ _ H) as (-> & _ & _). split.
  - by apply residual_elem.
  - intros k xs Hk Hdx.
    destruct (groups_qualify view _ _ _ _ _ _ _ H Hk Hdx) as [_ Hq]. congruence.
Qed.

Lemma single_call_result_passes_through_witness :
  [Example.S1] ∈ [[Example.S1]]
  ∧ ∀ k xs, ({[ "fam1" := [Example.A]; "C" := [Example.C] ]}
               : gmap string (list sample)) !! k = Some xs → Example.S1 ∉ xs.
Proof.
  apply (proj2 single_call_result_passes_through sample id
           [[Example.A]; [Example.S1]; [Example.C]] _ _ ltac:(by vm_compute)
           [Example.S1] Example.S1).
  - apply list_elem_of_In. right. left. reflexivity.
  - reflexivity.
  - cbn. lia.
Defined.

Section PassThrough.

Import Ensemble.

Variable h : store.

Lemma with_results_nil d : Spec.with_results [] d = d.
Proof. by destruct d. Qed.

Lemma only_results_added_refl : Spec.only_results_added h h.
Proof. intros r. split; [|done]. exists []. by rewrite with_results_nil. Qed.

Lemma insert_step_inv c st r :
  _has_ensemble (h r) = true →
  Spec.only_results_added h st.2 →
  (insert_step c st r).1 = st.1 ++ [[r]]
  ∧ Spec.only_results_added h (insert_step c st r).2.
Proof.
  destruct st as [out h1]. cbn. intros Hq Hh. split; [done|].
  intros r'. destruct (decide (r' = r)) as [->|Hne].
  - rewrite fn_lookup_insert. split; [|congruence].
    destruct (Hh r) as [[cs ->] _]. by exists (c :: cs).
  - rewrite fn_lookup_insert_ne by done. apply Hh.
Qed.

Lemma insert_steps_inv c xs : ∀ st,
  Forall (λ r, _has_ensemble (h r) = true) xs →
  Spec.only_results_added h st.2 →
  (fold_left (insert_step c) xs st).1 = st.1 ++ map (λ r, [r]) xs
  ∧ Spec.only_results_added h (fold_left (insert_step c) xs st).2.
Proof.
  induction xs as [|r xs IH]; intros st Hall Hh.
  - cbn. by rewrite app_nil_r.
  - inversion Hall as [|? ? Hr Hrest]; subst. cbn [fold_left].
    destruct (insert_step_inv c st r Hr Hh) as [Ho Hh'].
    destruct (IH _ Hrest Hh') as [Ho' Hh'']. split; [|done].
    rewrite Ho', Ho. cbn. by rewrite <- app_assoc.
Qed.

Lemma processed_steps_inv groups ps : ∀ st,
  (∀ k xs, groups !! k = Some xs → Forall (λ r, _has_ensemble (h r) = true) xs) →
  Spec.only_results_added h st.2 →
  Forall (λ x, ∃ r, x = [r] ∧ _has_ensemble (h r) = true) st.1 →
  Spec.only_results_added h (fold_left (processed_step groups) ps st).2
  ∧ Forall (λ x, ∃ r, x = [r] ∧ _has_ensemble (h r) = true)
           (fold_left (processed_step groups) ps st).1.
Proof.
  induction ps as [|[b c] ps IH]; intros st Hg Hh Hout; [done|].
  cbn [fold_left]. unfold processed_step at 2 4.
  assert (Forall (λ r, _has_ensemble (h r) = true) (default [] (groups !! b))) as Hall.
  { destruct (groups !! b) as [xs|] eqn:Hb; [by eapply Hg|constructor]. }
  destruct (insert_steps_inv c _ st Hall Hh) as [Ho Hh'].
  apply IH; [done|done|]. rewrite Ho. apply Forall_app. split; [done|].
  apply Forall_fmap. eapply Forall_impl; [exact Hall|]. intros r Hr. by exists r.
Qed.

End PassThrough.

(** C7.  The grouping puts only qualifying samples into groups and
    returns the samples that do not qualify as the residual list, each
    as it came in and in input order.  What [combine_calls_parallel]
    returns ends with exactly this residual list, and everything before it
    refers to a qualifying sample.  The call changes the dictionary of no
    sample that does not qualify, and changes the others only by putting
    results in front of their call results. *)
Theorem non_qualifying_samples_pass_through :
  (∀ (A : Type) (view : A → sample) (samples : list (list A)) (check : A → bool)
     groups extras,
     Ensemble._group_by_batches view samples check = Ok (groups, extras) →
     ∃ datas,
       Forall2 (λ x d, head x = Some d) samples datas
       ∧ extras = Spec.residual check datas
       ∧ ∀ k xs d, groups !! k = Some xs → d ∈ xs → check d = true)
  ∧ (∀ (h h' : store) (samples : list (list nat)) run_parallel (w w' : world) out,
       Ensemble.combine_calls_parallel h samples run_parallel w = (Ok (out, h'), w') →
       ∃ datas out_q,
         Forall2 (λ x d, head x = Some d) samples datas
         ∧ out = out_q ++ Spec.residual (λ r, Ensemble._has_ensemble (h r)) datas
         ∧ Forall (λ x, ∃ r, x = [r] ∧ Ensemble._has_ensemble (h r) = true) out_q
         ∧ (∀ r, Ensemble._has_ensemble (h r) = false → h' r = h r)
         ∧ (∀ r, ∃ cs, h' r = Spec.with_results cs (h r))).
Proof.
  split.
  - intros A view samples check groups extras H. unfold Ensemble._group_by_batches in H.
    destruct (Ensemble.mapM_res Ensemble.first samples) as [datas|] eqn:Hd; [|done].
    cbn in H. exists datas.
    pose proof (group_loop_inv view check datas _ _ _ _ H) as (He & _ & _).
    split; [by apply mapM_first_heads|]. split; [done|].
    intros k xs d Hk Hx. by destruct (groups_qualify view check _ _ _ _ _ _ H Hk Hx).
  - intros h h' samples run_parallel w w' out H.
    unfold Ensemble.combine_calls_parallel, lift in H.
    unfold mbind at 1, M_bind at 1 in H.
    destruct (Ensemble._group_by_batches h samples _) as [[groups extras]|] eqn:Hg;
      [|done].
    unfold Ensemble._group_by_batches in Hg.
    destruct (Ensemble.mapM_res Ensemble.first samples) as [datas|] eqn:Hd; [|done].
    cbn in Hg.
    pose proof (group_loop_inv h _ datas _ _ _ _ Hg) as (He & _ & _). cbn in He.
    assert (∀ k xs, groups !! k = Some xs →
              Forall (λ r, Ensemble._has_ensemble (h r) = true) xs) as Hq.
    { intros k xs Hk. apply Forall_forall. intros r Hr.
      by destruct (groups_qualify h _ _ _ _ _ _ _ Hg Hk Hr). }
    assert (∃ out_q, Forall (λ x, ∃ r, x = [r] ∧ Ensemble._has_ensemble (h r) = true) out_q
                     ∧ Spec.only_results_added h h' ∧ out = out_q ++ extras)
      as (out_q & Hout & Hh & ->).
    { unfold mbind at 1, M_bind at 1 in H.
      destruct (bool_decide (groups ≠ ∅)).
      - unfold mbind at 1, M_bind at 1 in H. unfold lift in H.
        destruct (Ensemble.batch_args h groups) as [args|]; [|done].
        unfold mbind at 1, M_bind at 1 in H.
        destruct (run_parallel "combine_calls" args w) as [[processed|] w1]; [|done].
        pose proof (processed_steps_inv h groups processed ([], h) Hq
                      (only_results_added_refl h) (Forall_nil_2 _)) as [Hh Hout].
        destruct (fold_left _ processed ([], h)) as [out1 h1].
        unfold mret, M_ret in H. injection H as <- <- <-. by exists out1.
      - injection H as <- <- <-. exists [].
        split; [constructor|]. split; [apply only_results_added_refl|done]. }
    exists datas, out_q.
    split; [by apply mapM_first_heads|]. split; [by rewrite He|]. split; [done|].
    split; intros r; by destruct (Hh r).
Qed.

Lemma non_qualifying_samples_pass_through_witness :
  ∃ datas out_q,
    Forall2 (λ x d, head x = Some d) [[0%nat]; [1%nat]; [2%nat]] datas
    ∧ [[2%nat]; [0%nat]; [1%nat]]
      = out_q ++ Spec.residual (λ r, Ensemble._has_ensemble (Example.h0 r)) datas
    ∧ Forall (λ x, ∃ r, x = [r] ∧ Ensemble._has_ensemble (Example.h0 r) = true) out_q
    ∧ (∀ r, Ensemble._has_ensemble (Example.h0 r) = false →
         Example.h0_after r = Example.h0 r)
    ∧ (∀ r, ∃ cs, Example.h0_after r = Spec.with_results cs (Example.h0 r)).
Proof.
  apply (proj2 non_qualifying_samples_pass_through Example.h0 Example.h0_after
           [[0%nat]; [1%nat]; [2%nat]] (Ensemble.run_sequential Example.E0)
           Example.w_empty Example.run0.2).
  by vm_compute.
Defined.

(** ** Results on the multi-caller merger *)

Lemma foldM_rel {A S : Type} (f : S → A → M S)
    (R : list A → S * world → S * world → Prop) :
  (∀ s w, R [] (s, w) (s, w)) →
  (∀ x l s w s1 w1 s2 w2,
     f s x w = (Ok s1, w1) → R l (s1, w1) (s2, w2) →
     R (x :: l) (s, w) (s2, w2)) →
  ∀ l s w s' w', Ensemble.foldM f s l w = (Ok s', w') → R l (s, w) (s', w').
Proof.
  intros Hnil Hcons. induction l as [|x l IH]; intros s w s' w' H.
  - cbn in H. munfold. injection H as <- <-. apply Hnil.
  - cbn in H. munfold. destruct (f s x w) as [[s1|] w1] eqn:Hf; [|done].
    eapply Hcons; [done|]. by apply IH.
Qed.

Section Merger.

Import Ensemble.

Variable E : externals.

Lemma call_called e w r w' :
  FS.call E e w = (r, w') → called w' = called w ++ [e].
Proof.
  unfold FS.call. destruct (tool E e (clock w) (files w)); by intros [= <- <-].
Qed.

Lemma organize_vrn_ok data st v w st' w' :
  organize_vrn E data st v w = (Ok st', w') →
  bam_files st' = bam_files st
  ∧ (∃ f, calls st' = <[variantcaller v :=
                          default [] (calls st !! variantcaller v) ++ [f]]> (calls st)
          ∧ (is_tumor data = false → f = vrn_file v))
  ∧ (is_tumor data = false → w' = w ∧ vrn_file_temp st' = vrn_file_temp st)
  ∧ (∃ evs, called w' = called w ++ evs ∧ Forall Spec.is_select evs).
Proof.
  unfold organize_vrn. destruct (is_tumor data) eqn:Ht.
  - destruct (vrn_file v) as [f|] eqn:Hv; [|by munfold].
    unfold select_sample. munfold.
    destruct (tumor_only_name st f) as [t|]; [|done].
    destruct (name_second data) as [sn|]; [|done].
    destruct (FS.call E _ w) as [[[]|] w1] eqn:Hc; [|done].
    apply call_called in Hc. intros [= <- <-]. cbn.
    split; [done|]. split; [by eexists|]. split; [done|].
    eexists. split; [done|]. by repeat constructor.
  - munfold. intros [= <- <-]. cbn.
    split; [done|]. split; [by eexists|]. split; [done|].
    exists []. split; [by rewrite app_nil_r|constructor].
Qed.

Lemma lookup_contribute (m : gmap string (list fref)) (k c : string) (f : fref) :
  default [] (<[k := default [] (m !! k) ++ [f]]> m !! c)
  = default [] (m !! c) ++ (if String.eqb k c then [f] else []).
Proof.
  destruct (String.eqb_spec k c) as [->|Hne].
  - by rewrite lookup_insert_eq.
  - rewrite lookup_insert_ne by done. by rewrite app_nil_r.
Qed.

Lemma organize_vrns_ok data vs : ∀ st w st' w',
  foldM (organize_vrn E data) st vs w = (Ok st', w') →
  bam_files st' = bam_files st
  ∧ (∀ c, ∃ fs,
       default [] (calls st' !! c) = default [] (calls st !! c) ++ fs
       ∧ length fs = length (List.filter (λ v, String.eqb (variantcaller v) c) vs)
       ∧ (is_tumor data = false →
          fs = map vrn_file (List.filter (λ v, String.eqb (variantcaller v) c) vs)))
  ∧ (is_tumor data = false → w' = w ∧ vrn_file_temp st' = vrn_file_temp st)
  ∧ (∃ evs, called w' = called w ++ evs ∧ Forall Spec.is_select evs).
Proof.
  induction vs as [|v vs IH]; intros st w st' w' H.
  - cbn in H. munfold. injection H as <- <-.
    split; [done|]. split; [|split; [done|]].
    + intros c. exists []. by rewrite app_nil_r.
    + exists []. split; [by rewrite app_nil_r|constructor].
  - cbn in H. munfold.
    destruct (organize_vrn E data st v w) as [[s1|] w1] eqn:Hs; [|done].
    apply organize_vrn_ok in Hs as (Hb1 & (f & Hc1 & Hf) & Hw1 & evs1 & He1 & Hsel1).
    apply IH in H as (Hb2 & Hc2 & Hw2 & evs2 & He2 & Hsel2).
    split; [congruence|]. split; [|split].
    + intros c. destruct (Hc2 c) as (fs & Hfs & Hlen & Hnt).
      exists ((if String.eqb (variantcaller v) c then [f] else []) ++ fs).
      rewrite Hfs, Hc1, lookup_contribute, <- app_assoc. split; [done|].
      cbn [List.filter]. destruct (String.eqb (variantcaller v) c); cbn.
      * split; [by rewrite Hlen|]. intros Hno. by rewrite Hnt, Hf.
      * done.
    + intros Hno. destruct (Hw1 Hno) as [-> Ht1]. destruct (Hw2 Hno) as [-> Ht2].
      split; congruence.
    + exists (evs1 ++ evs2). rewrite He2, He1, <- app_assoc. split; [done|].
      by apply Forall_app.
Qed.

Lemma organize_samples_ok samples : ∀ st w st' w',
  foldM (organize_sample E) st samples w = (Ok st', w') →
  (∀ c, ∃ fs,
     default [] (calls st' !! c) = default [] (calls st !! c) ++ fs
     ∧ length fs = length (Spec.entries c samples)
     ∧ (Forall (λ d, is_tumor d = false) samples →
        fs = map vrn_file (Spec.entries c samples)))
  ∧ (Forall (λ d, is_tumor d = false) samples →
     w' = w ∧ vrn_file_temp st' = vrn_file_temp st)
  ∧ (∃ evs, called w' = called w ++ evs ∧ Forall Spec.is_select evs).
Proof.
  induction samples as [|d samples IH]; intros st w st' w' H.
  - cbn in H. munfold. injection H as <- <-. split; [|split; [done|]].
    + intros c. exists []. by rewrite app_nil_r.
    + exists []. split; [by rewrite app_nil_r|constructor].
  - cbn in H. munfold.
    destruct (organize_sample E st d w) as [[s1|] w1] eqn:Hs; [|done].
    unfold organize_sample in Hs.
    apply organize_vrns_ok in Hs as (_ & Hc1 & Hw1 & evs1 & He1 & Hsel1).
    cbn [calls vrn_file_temp] in *.
    apply IH in H as (Hc2 & Hw2 & evs2 & He2 & Hsel2).
    split; [|split].
    + intros c. destruct (Hc1 c) as (fs1 & Hfs1 & Hlen1 & Hnt1).
      destruct (Hc2 c) as (fs2 & Hfs2 & Hlen2 & Hnt2).
      exists (fs1 ++ fs2). rewrite Hfs2, Hfs1, <- app_assoc. split; [done|].
      unfold Spec.entries in *. cbn [map concat]. rewrite List.filter_app.
      split; [by rewrite !length_app, Hlen1, Hlen2|].
      intros Hall. inversion Hall as [|? ? Hd Hrest]; subst.
      by rewrite map_app, Hnt1, Hnt2.
    + intros Hall. inversion Hall as [|? ? Hd Hrest]; subst.
      destruct (Hw1 Hd) as [-> Ht1]. destruct (Hw2 Hrest) as [-> Ht2].
      split; congruence.
    + exists (evs1 ++ evs2). rewrite He2, He1, <- app_assoc. split; [done|].
      by apply Forall_app.
Qed.

Lemma representative_loop cs batch_id s0 callers : ∀ acc w vf w',
  foldM (representative E cs batch_id s0) acc callers w = (Ok vf, w') →
  vf = acc ++ map (λ c, Spec.representative_of E batch_id s0 c (default [] (cs !! c)))
                  callers
  ∧ called w' = called w
                ++ Spec.merge_events batch_id (λ c, default [] (cs !! c)) callers.
Proof.
  induction callers as [|c callers IH]; intros acc w vf w' H.
  - cbn in H. munfold. injection H as <- <-. unfold Spec.merge_events. cbn.
    by rewrite !app_nil_r.
  - cbn in H. unfold mbind at 1, M_bind at 1 in H.
    destruct (representative E cs batch_id s0 acc c w) as [[a1|] w1] eqn:Hr; [|done].
    apply IH in H as [-> ->].
    unfold representative, Spec.representative_of, Spec.merge_events in *.
    cbn [map concat].
    destruct (default [] (cs !! c)) as [|f [|g fs]] eqn:Hfs.
    + unfold get_multisample_vcf in Hr. munfold.
      destruct (FS.call E _ w) as [[[]|] w2] eqn:Hc; [|done].
      apply call_called in Hc. injection Hr as <- <-.
      by rewrite Hc, <- !app_assoc.
    + munfold. injection Hr as <- <-. by rewrite <- !app_assoc.
    + unfold get_multisample_vcf in Hr. munfold.
      destruct (FS.call E _ w) as [[[]|] w2] eqn:Hc; [|done].
      apply call_called in Hc. injection Hr as <- <-.
      by rewrite Hc, <- !app_assoc.
Qed.

End Merger.

Lemma bind_ok {A B : Type} (m : M A) (k : A → M B) w b w' :
  (m ≫= k) w = (Ok b, w') → ∃ a w1, m w = (Ok a, w1) ∧ k a w1 = (Ok b, w').
Proof.
  unfold mbind, M_bind. destruct (m w) as [[a|e] w1]; [|done]. intros H. by exists a, w1.
Qed.

Section MergerExact.

Import Ensemble.

Variable E : externals.

Lemma organize_vrn_exact d st v w st' w' :
  organize_vrn E d st v w = (Ok st', w') →
  ∃ x, Spec.contribute (vrn_file_temp st) d v = Some (x, vrn_file_temp st')
       ∧ Spec.by_caller x = variantcaller v
       ∧ bam_files st' = bam_files st
       ∧ calls st' = <[variantcaller v :=
                         default [] (calls st !! variantcaller v)
                         ++ [Spec.contributed_file x]]> (calls st)
       ∧ called w' = called w ++ Spec.selection x.
Proof.
  unfold organize_vrn, Spec.contribute. destruct (is_tumor d).
  - destruct (vrn_file v) as [f|]; [|by munfold].
    unfold select_sample, tumor_only_name, Spec.filtered_name, name_second. munfold.
    cbn [mbind option_bind].
    destruct (Py.contains ".vcf" f).
    + cbn [option_bind]. destruct (name d !! 1%nat) as [sn|]; [|done].
      destruct (FS.call E _ w) as [[[]|] w1] eqn:Hc; [|done].
      apply call_called in Hc. intros [= <- <-]. eexists. split; [done|]. by cbn.
    + destruct (vrn_file_temp st) as [t|]; [|done]. cbn [fmap option_fmap option_map option_bind].
      destruct (name d !! 1%nat) as [sn|]; [|done].
      destruct (FS.call E _ w) as [[[]|] w1] eqn:Hc; [|done].
      apply call_called in Hc. intros [= <- <-]. eexists. split; [done|]. by cbn.
  - munfold. intros [= <- <-]. eexists. split; [done|]. cbn. by rewrite app_nil_r.
Qed.

Lemma organize_vrns_exact d vs : ∀ st w st' w',
  foldM (organize_vrn E d) st vs w = (Ok st', w') →
  ∃ xs, Spec.walk (vrn_file_temp st) (map (pair d) vs) = Some (xs, vrn_file_temp st')
        ∧ bam_files st' = bam_files st
        ∧ (∀ c, default [] (calls st' !! c)
                = default [] (calls st !! c) ++ Spec.files_of c xs)
        ∧ called w' = called w ++ concat (map Spec.selection xs).
Proof.
  induction vs as [|v vs IH]; intros st w st' w' H.
  - cbn in H. munfold. injection H as <- <-. exists []. cbn.
    split; [done|]. split; [done|]. split; [|by rewrite app_nil_r].
    intros c. by rewrite app_nil_r.
  - cbn [foldM] in H. apply bind_ok in H as (s1 & w1 & Hs & H).
    apply organize_vrn_exact in Hs as (x & Hx & Hcal & Hb & Hc & Hev).
    apply IH in H as (xs & Hw & Hb2 & Hc2 & Hev2).
    exists (x :: xs). cbn [map Spec.walk]. rewrite Hx, Hw.
    split; [done|]. split; [congruence|]. split.
    + intros c. rewrite Hc2, Hc, lookup_contribute, <- app_assoc. f_equal.
      unfold Spec.files_of. cbn [List.filter]. rewrite Hcal.
      by destruct (String.eqb (variantcaller v) c).
    + rewrite Hev2, Hev. cbn [map concat]. by rewrite <- app_assoc.
Qed.

Lemma walk_app l1 : ∀ l2 last,
  Spec.walk last (l1 ++ l2)
  = match Spec.walk last l1 with
    | Some (x1, t1) =>
        match Spec.walk t1 l2 with
        | Some (x2, t2) => Some (x1 ++ x2, t2)
        | None => None
        end
    | None => None
    end.
Proof.
  induction l1 as [|[d v] l1 IH]; intros l2 last.
  - cbn. by destruct (Spec.walk last l2) as [[? ?]|].
  - cbn [app Spec.walk]. destruct (Spec.contribute last d v) as [[x t]|]; [|done].
    rewrite IH. destruct (Spec.walk t l1) as [[x1 t1]|]; [|done].
    by destruct (Spec.walk t1 l2) as [[x2 t2]|].
Qed.

Lemma files_of_app c xs ys :
  Spec.files_of c (xs ++ ys) = Spec.files_of c xs ++ Spec.files_of c ys.
Proof. unfold Spec.files_of. by rewrite List.filter_app, map_app. Qed.

Lemma organize_samples_exact samples : ∀ st w st' w',
  foldM (organize_sample E) st samples w = (Ok st', w') →
  ∃ xs, Spec.walk (vrn_file_temp st) (Spec.visited samples)
        = Some (xs, vrn_file_temp st')
        ∧ (∀ c, default [] (calls st' !! c)
                = default [] (calls st !! c) ++ Spec.files_of c xs)
        ∧ called w' = called w ++ concat (map Spec.selection xs).
Proof.
  induction samples as [|d samples IH]; intros st w st' w' H.
  - cbn in H. munfold. injection H as <- <-. exists []. cbn.
    split; [done|]. split; [|by rewrite app_nil_r]. intros c. by rewrite app_nil_r.
  - cbn [foldM] in H. apply bind_ok in H as (s1 & w1 & Hs & H).
    unfold organize_sample in Hs.
    apply organize_vrns_exact in Hs as (xs1 & Hw1 & _ & Hc1 & Hev1).
    cbn [calls vrn_file_temp] in Hw1, Hc1.
    apply IH in H as (xs2 & Hw2 & Hc2 & Hev2).
    exists (xs1 ++ xs2). unfold Spec.visited. cbn [map concat].
    rewrite walk_app, Hw1. fold (Spec.visited samples). rewrite Hw2.
    split; [done|]. split.
    + intros c. by rewrite Hc2, Hc1, files_of_app, <- app_assoc.
    + by rewrite Hev2, Hev1, map_app, concat_app, <- app_assoc.
Qed.

Lemma merge_events_ext batch_id (f g : string → list fref) callers :
  (∀ c, f c = g c) →
  Spec.merge_events batch_id f callers = Spec.merge_events batch_id g callers.
Proof.
  intros H. unfold Spec.merge_events. f_equal. apply map_ext. intros c. by rewrite H.
Qed.

Lemma organize_variants_exact samples batch_id w w' caller_names vrn_files bams :
  _organize_variants E samples batch_id w = (Ok (caller_names, vrn_files, bams), w') →
  ∃ s0 last,
    head samples = Some s0
    ∧ caller_names = map variantcaller (variants s0)
    ∧ Spec.walk None (Spec.visited samples) = Some (Spec.contributions samples, last)
    ∧ vrn_files = map (λ c, Spec.representative_of E batch_id s0 c
                              (Spec.contributed samples c)) caller_names
    ∧ called w' = called w ++ Spec.selections samples
                  ++ Spec.merge_events batch_id (Spec.contributed samples) caller_names.
Proof.
  intros H. unfold _organize_variants in H.
  apply bind_ok in H as (s0 & w1 & Hf & H). unfold lift in Hf.
  destruct samples as [|s0' rest]; [done|]. injection Hf as -> <-.
  apply bind_ok in H as (st & w2 & Hs & H).
  apply bind_ok in H as (vf & w3 & Hr & H).
  unfold mret, M_ret in H. injection H as <- <- _ <-.
  apply organize_samples_exact in Hs as (xs & Hw & Hc & Hev).
  cbn [vrn_file_temp calls] in Hw, Hc.
  apply representative_loop in Hr as [-> Hev2]. cbn [app] in *.
  assert (Spec.contributions (s0 :: rest) = xs) as Hxs
    by (unfold Spec.contributions; by rewrite Hw).
  assert (∀ c, default [] (calls st !! c) = Spec.contributed (s0 :: rest) c) as Hcon.
  { intros c. unfold Spec.contributed. rewrite Hxs, Hc. by rewrite lookup_empty. }
  exists s0, (vrn_file_temp st). split; [done|]. split; [done|].
  split; [by rewrite Hxs|]. split.
  - apply map_ext. intros c. by rewrite Hcon.
  - rewrite Hev2, Hev, <- app_assoc. unfold Spec.selections. rewrite Hxs.
    by rewrite (merge_events_ext batch_id _ _ _ Hcon).
Qed.

End MergerExact.

Section WalkFacts.

Lemma contribute_obtained last d v x t :
  Spec.contribute last d v = Some (x, t) → Spec.obtained (d, v) x.
Proof.
  unfold Spec.contribute, Spec.obtained, Spec.contributes. cbn [fst snd].
  destruct (Ensemble.is_tumor d).
  - destruct (vrn_file v) as [f|]; [|done]. cbn [mbind option_bind].
    destruct (Spec.filtered_name last f) as [n|] eqn:Hn; [|done]. cbn [option_bind].
    destruct (name d !! 1%nat) as [sn|]; [|done]. cbn [option_bind].
    intros [= <- <-]. cbn. split; [done|]. split; [|split; [done|]].
    + split; [done|]. intros _. exists f, n. split; [done|]. split; [done|].
      intros Hc. unfold Spec.filtered_name in Hn. rewrite Hc in Hn. by injection Hn.
    + intros _. by exists f, n, sn.
  - intros [= <- <-]. cbn. split; [done|]. split; [by split|]. by split.
Qed.

Lemma walk_obtained l : ∀ last xs t,
  Spec.walk last l = Some (xs, t) → Forall2 Spec.obtained l xs.
Proof.
  induction l as [|[d v] l IH]; intros last xs t H.
  - cbn in H. injection H as <- <-. constructor.
  - cbn [Spec.walk] in H.
    destruct (Spec.contribute last d v) as [[x t1]|] eqn:Hx; [|done].
    destruct (Spec.walk t1 l) as [[xs' t2]|] eqn:Hw; [|done].
    injection H as <- <-. constructor; [by eapply contribute_obtained|by eapply IH].
Qed.

Lemma obtained_filter c l xs :
  Forall2 Spec.obtained l xs →
  Forall2 Spec.obtained
    (List.filter (λ p, String.eqb (variantcaller p.2) c) l)
    (List.filter (λ x, String.eqb (Spec.by_caller x) c) xs).
Proof.
  induction 1 as [|p x l xs Hp _ IH]; [constructor|]. cbn [List.filter].
  destruct Hp as (Hc & Hrest). rewrite Hc.
  destruct (String.eqb (variantcaller p.2) c); [|done].
  constructor; [|done]. by split.
Qed.

Lemma visited_snd samples :
  map snd (Spec.visited samples) = concat (map variants samples).
Proof.
  unfold Spec.visited. induction samples as [|d samples IH]; [done|].
  cbn [map concat]. rewrite map_app, IH. f_equal.
  induction (variants d) as [|v vs IHv]; [done|]. cbn. by rewrite IHv.
Qed.

Lemma filter_map_snd {A B : Type} (P : B → bool) (l : list (A * B)) :
  map snd (List.filter (λ p, P p.2) l) = List.filter P (map snd l).
Proof.
  induction l as [|[a b] l IH]; [done|]. cbn. destruct (P b); cbn; by rewrite IH.
Qed.

Lemma visited_of_entries c samples :
  map snd (Spec.visited_of c samples) = Spec.entries c samples.
Proof.
  unfold Spec.visited_of, Spec.entries.
  by rewrite (filter_map_snd (λ v, String.eqb (variantcaller v) c)), visited_snd.
Qed.

Lemma visited_elem samples d v :
  (d, v) ∈ Spec.visited samples ↔ d ∈ samples ∧ v ∈ variants d.
Proof.
  unfold Spec.visited. induction samples as [|s samples IH].
  - cbn. split; [intros H; by apply elem_of_nil in H|].
    intros [H _]. by apply elem_of_nil in H.
  - cbn [map concat]. rewrite elem_of_app, IH, elem_of_cons. split.
    + intros [H|[Hd Hv]]; [|by auto].
      apply list_elem_of_In, in_map_iff in H as (v' & [= <- <-] & Hv).
      split; [by left|]. by apply list_elem_of_In.
    + intros [[->|Hd] Hv]; [left|by right].
      apply list_elem_of_In, in_map. by apply list_elem_of_In.
Qed.

Lemma contributed_entrywise samples last c :
  Spec.walk None (Spec.visited samples) = Some (Spec.contributions samples, last) →
  Forall2 Spec.contributes (Spec.visited_of c samples) (Spec.contributed samples c).
Proof.
  intros Hw. apply walk_obtained in Hw.
  unfold Spec.contributed, Spec.files_of, Spec.visited_of.
  apply Forall2_fmap_r. eapply Forall2_impl; [by apply obtained_filter|].
  intros p x (_ & H & _). exact H.
Qed.

Lemma selections_are_selections samples last :
  Spec.walk None (Spec.visited samples) = Some (Spec.contributions samples, last) →
  Forall Spec.is_select (Spec.selections samples).
Proof.
  intros Hw. apply walk_obtained in Hw. unfold Spec.selections.
  induction Hw as [|[d v] x l xs Hp _ IH]; [constructor|].
  cbn [map concat]. apply Forall_app. split; [|done].
  destruct Hp as (_ & _ & Hn & Ht). cbn [fst] in *.
  destruct (Ensemble.is_tumor d).
  - destruct (Ht eq_refl) as (g & t & sn & _ & _ & _ & ->). by repeat constructor.
  - rewrite (Hn eq_refl). constructor.
Qed.

End WalkFacts.

(** C3.  [_organize_variants] lists the callers of the first sample of
    the batch, entry by entry and in that order, and returns one
    representative for each of them.  The files a caller contributes are
    those of its call results across the batch, in visiting order: the
    result file itself for a sample that is no tumour, the filtered
    file for a tumour sample.  Every listed caller has at least one
    contributing file; with exactly one, the representative is that file
    and no merge is asked for; otherwise it is the merged file, asked for
    once.  Apart from these merges only the selections for the tumour
    samples are called. *)
Theorem organize_variants_representatives :
  ∀ (E : externals) (samples : list sample) (batch_id : string) (w w' : world)
    caller_names vrn_files bams,
    Ensemble._organize_variants E samples batch_id w
    = (Ok (caller_names, vrn_files, bams), w') →
    ∃ s0,
      head samples = Some s0
      ∧ caller_names = map variantcaller (variants s0)
      ∧ (∀ c, Forall2 Spec.contributes (Spec.visited_of c samples)
                (Spec.contributed samples c))
      ∧ (∀ c, length (Spec.contributed samples c) = length (Spec.entries c samples))
      ∧ (Forall (λ d, Ensemble.is_tumor d = false) samples →
         ∀ c, Spec.contributed samples c = map vrn_file (Spec.entries c samples))
      ∧ Forall2 (λ c f, Spec.contributed samples c ≠ []
                        ∧ f = Spec.representative_of E batch_id s0 c
                                (Spec.contributed samples c))
                caller_names vrn_files
      ∧ called w' = called w ++ Spec.selections samples
                    ++ Spec.merge_events batch_id (Spec.contributed samples) caller_names
      ∧ Forall Spec.is_select (Spec.selections samples).
Proof.
  intros E samples batch_id w w' cn vf bams H.
  apply organize_variants_exact in H as (s0 & last & Hhead & -> & Hw & -> & Hev).
  pose proof (contributed_entrywise samples last) as Hentry.
  assert (∀ c, length (Spec.contributed samples c) = length (Spec.entries c samples))
    as Hlen.
  { intros c. rewrite <- (visited_of_entries c samples), length_map.
    symmetry. by eapply Forall2_length, Hentry. }
  exists s0. split; [done|]. split; [done|]. split; [by intros c; apply Hentry|].
  split; [done|]. split; [|split; [|split; [done|by eapply selections_are_selections]]].
  - intros Hnt c. rewrite <- (visited_of_entries c samples).
    specialize (Hentry c Hw).
    assert (Forall (λ p, Ensemble.is_tumor p.1 = false) (Spec.visited_of c samples))
      as Hall.
    { apply Forall_forall. intros [d v] Hin. unfold Spec.visited_of in Hin.
      apply elem_filter in Hin as [Hin _]. apply visited_elem in Hin as [Hd _].
      rewrite Forall_forall in Hnt. by apply Hnt. }
    induction Hentry as [|p f l fs Hp _ IH]; [done|].
    inversion Hall as [|? ? Hp1 Hl]; subst. cbn [map].
    destruct Hp as [Hn _]. by rewrite (Hn Hp1), IH.
  - apply Forall2_fmap_r, Forall_Forall2_diag, Forall_forall.
    intros c Hcin. apply list_elem_of_fmap in Hcin as (v & -> & Hv). split; [|done].
    intros Hnil. specialize (Hlen (variantcaller v)). rewrite Hnil in Hlen.
    assert (v ∈ Spec.entries (variantcaller v) samples) as Hin.
    { unfold Spec.entries. apply filter_elem; [|apply String.eqb_refl].
      destruct samples as [|s rest]; [done|]. injection Hhead as ->.
      cbn. apply elem_of_app. by left. }
    destruct (Spec.entries _ _); [by apply elem_of_nil in Hin|done].
Qed.

Lemma organize_variants_representatives_witness :
  ∃ s0,
    head [Example.N; Example.T] = Some s0
    ∧ ["gatk"; "strelka"] = map variantcaller (variants s0)
    ∧ (∀ c, Forall2 Spec.contributes (Spec.visited_of c [Example.N; Example.T])
              (Spec.contributed [Example.N; Example.T] c))
    ∧ (∀ c, length (Spec.contributed [Example.N; Example.T] c)
            = length (Spec.entries c [Example.N; Example.T]))
    ∧ (Forall (λ d, Ensemble.is_tumor d = false) [Example.N; Example.T] →
       ∀ c, Spec.contributed [Example.N; Example.T] c
            = map vrn_file (Spec.entries c [Example.N; Example.T]))
    ∧ Forall2 (λ c f, Spec.contributed [Example.N; Example.T] c ≠ []
                      ∧ f = Spec.representative_of Example.E0 "pair1" s0 c
                              (Spec.contributed [Example.N; Example.T] c))
              ["gatk"; "strelka"]
              [Some "work/pair1-gatk.vcf"; Some "work/pair1-strelka.vcf"]
    ∧ called (Ensemble._organize_variants Example.E0 [Example.N; Example.T] "pair1"
                Example.w_empty).2
      = called Example.w_empty ++ Spec.selections [Example.N; Example.T]
        ++ Spec.merge_events "pair1" (Spec.contributed [Example.N; Example.T])
             ["gatk"; "strelka"]
    ∧ Forall Spec.is_select (Spec.selections [Example.N; Example.T]).
Proof.
  apply (organize_variants_representatives Example.E0 [Example.N; Example.T] "pair1"
           Example.w_empty _ _ _ []).
  by vm_compute.
Defined.

(** C3, as worded, fails: in a batch where a third caller was run on the
    second sample only, that caller is present across the batch with one
    contributing file, yet it is not listed and its file is no
    representative. *)
Lemma caller_of_later_sample_is_dropped :
  ¬ Spec.one_representative_per_caller Example.E0 [Example.A; Example.X] "fam1"
      Example.w_empty.
Proof.
  intros H.
  destruct (H ["gatk"; "freebayes"]
              [Some "work/fam1-gatk.vcf"; Some "work/fam1-freebayes.vcf"] []
              (Ensemble._organize_variants Example.E0 [Example.A; Example.X] "fam1"
                 Example.w_empty).2 ltac:(by vm_compute)) as [Hcn _].
  by vm_compute in Hcn.
Qed.

Section TumorOnly.

Import Ensemble.

Variable E : externals.


Lemma organize_vrn_normal data st v w :
  is_tumor data = false →
  organize_vrn E data st v w
  = (Ok (OrgState (bam_files st)
           (<[variantcaller v :=
                default [] (calls st !! variantcaller v) ++ [vrn_file v]]> (calls st))
           (vrn_file_temp st)), w).
Proof. intros Hn. unfold organize_vrn. by rewrite Hn. Qed.

Lemma organize_vrns_normal data vs : ∀ st w,
  is_tumor data = false →
  ∃ st', foldM (organize_vrn E data) st vs w = (Ok st', w)
         ∧ vrn_file_temp st' = vrn_file_temp st.
Proof.
  induction vs as [|v vs IH]; intros st w Hn.
  - by exists st.
  - cbn [foldM]. unfold mbind at 1, M_bind at 1.
    rewrite (organize_vrn_normal data st v w Hn).
    destruct (IH (OrgState (bam_files st)
                    (<[variantcaller v :=
                         default [] (calls st !! variantcaller v) ++ [vrn_file v]]>
                       (calls st))
                    (vrn_file_temp st)) w Hn) as (st' & -> & Ht).
    by exists st'.
Qed.

Lemma organize_samples_normal pre : ∀ st w,
  Forall (λ d, is_tumor d = false ∨ variants d = []) pre →
  ∃ st', foldM (organize_sample E) st pre w = (Ok st', w)
         ∧ vrn_file_temp st' = vrn_file_temp st.
Proof.
  induction pre as [|d pre IH]; intros st w Hall.
  - by exists st.
  - inversion Hall as [|? ? Hd Hrest]; subst. cbn [foldM].
    unfold mbind at 1, M_bind at 1. unfold organize_sample at 1.
    assert (∃ s1, foldM (organize_vrn E d)
                    (OrgState match work_bam d with
                              | Some b => {[b]} ∪ bam_files st
                              | None => bam_files st
                              end (calls st) (vrn_file_temp st)) (variants d) w
                  = (Ok s1, w) ∧ vrn_file_temp s1 = vrn_file_temp st)
      as (s1 & -> & Ht1).
    { destruct Hd as [Hd| ->]; [|by eexists].
      destruct (organize_vrns_normal d (variants d)
                  (OrgState match work_bam d with
                            | Some b => {[b]} ∪ bam_files st
                            | None => bam_files st
                            end (calls st) (vrn_file_temp st)) w Hd) as (s1 & Hs1 & Ht1).
      by exists s1. }
    destruct (IH s1 w Hrest) as (st' & -> & Ht). exists st'. split; [done|].
    by rewrite Ht, Ht1.
Qed.


End TumorOnly.





(** ** Results on staging and on the consensus builder *)

Section Staging.

Import Ensemble.

Variable E : externals.

Lemma silent_ret {A : Type} (a : A) : Spec.silent (mret a : M A).
Proof. done. Qed.

Lemma silent_gets {A : Type} (f : world → A) : Spec.silent (gets f).
Proof. done. Qed.

Lemma silent_lift {A : Type} (r : res A) : Spec.silent (lift r).
Proof. done. Qed.

Lemma silent_symlink_plus orig new : Spec.silent (FS.symlink_plus orig new).
Proof. intros w. unfold FS.symlink_plus. by destruct (files w !! orig). Qed.

Lemma silent_write p s : Spec.silent (FS.write p s).
Proof. done. Qed.

Lemma bind_called {A B : Type} (m : M A) (f : A → M B) w :
  (∀ a, Spec.silent (f a)) → called ((m ≫= f) w).2 = called (m w).2.
Proof.
  intros Hf. unfold mbind, M_bind. destruct (m w) as [[a|e] w1]; [apply Hf|done].
Qed.

Lemma silent_bind {A B : Type} (m : M A) (f : A → M B) :
  Spec.silent m → (∀ a, Spec.silent (f a)) → Spec.silent (m ≫= f).
Proof. intros Hm Hf w. by rewrite bind_called, Hm. Qed.

Lemma silent_ensure_bed out_bed_file prep : Spec.silent (ensure_bed out_bed_file prep).
Proof.
  apply silent_bind; [apply silent_gets|]. intros [|]; [apply silent_ret|].
  apply silent_bind; [apply silent_gets|]. intros [|b bs]; [apply silent_ret|].
  apply silent_symlink_plus.
Qed.

Lemma ensure_vcf_called vrn_files out_vcf_file ref_file config_file base_dir prep w :
  called (ensure_vcf E vrn_files out_vcf_file ref_file config_file base_dir prep w).2
  = called w ++ (if FS.file_exists w out_vcf_file then []
                 else [VariantEnsemble vrn_files out_vcf_file ref_file config_file
                         base_dir]).
Proof.
  unfold ensure_vcf. unfold mbind at 1, M_bind at 1. unfold gets at 1.
  destruct (FS.file_exists w out_vcf_file); [by rewrite app_nil_r|].
  rewrite bind_called.
  - unfold _bcbio_variation_ensemble, FS.safe_makedir.
    unfold mbind, M_bind, mret, M_ret.
    destruct (FS.call E _ w) as [r w1] eqn:Hc. by apply call_called in Hc.
  - intros []. apply silent_bind; [apply silent_gets|]. intros [|]; [apply silent_ret|].
    apply silent_bind; [apply silent_gets|]. intros found.
    apply silent_bind; [apply silent_lift|]. intros base_vcf.
    apply silent_symlink_plus.
Qed.

Lemma run_ensemble_called batch_id vrn_files config_file base_dir ref_file w :
  let out_vcf_file := Py.path_join base_dir (batch_id +:+ "-ensemble.vcf") in
  called (_run_ensemble E batch_id vrn_files config_file base_dir ref_file w).2
  = called w ++ (if FS.file_exists w out_vcf_file then []
                 else [VariantEnsemble vrn_files out_vcf_file ref_file config_file
                         base_dir]).
Proof.
  cbn zeta. unfold _run_ensemble. rewrite bind_called.
  - apply ensure_vcf_called.
  - intros []. apply silent_bind; [apply silent_ensure_bed|]. intros [].
    apply silent_bind; [apply silent_gets|]. intros b. apply silent_ret.
Qed.

End Staging.

Lemma remove_overlaps_uptodate (E : externals) in_file out_dir w :
  FS.file_uptodate w (PureCN.nooverlaps_name E in_file out_dir) in_file = true →
  PureCN._remove_overlaps E in_file out_dir w
  = (Ok (PureCN.nooverlaps_name E in_file out_dir), w).
Proof.
  intros Hup. unfold PureCN._remove_overlaps. munfold. by rewrite Hup.
Qed.

Lemma remove_overlaps_rewrites (E : externals) in_file out_dir w r w' :
  FS.file_uptodate w (PureCN.nooverlaps_name E in_file out_dir) in_file = false →
  PureCN._remove_overlaps E in_file out_dir w = (Ok r, w') →
  ∃ f', files w' !! PureCN.nooverlaps_name E in_file out_dir = Some f'
        ∧ clock w < mtime f'.
Proof.
  intros Hup. unfold PureCN._remove_overlaps. munfold. rewrite Hup.
  unfold FS.file_transaction, FS.read, FS.write, FS.move. munfold.
  destruct (files w !! in_file) as [f|]; [|done].
  destruct (PureCN.remove_overlaps_lines _) as [out|]; [|done].
  cbn [files clock called]. rewrite lookup_insert_eq. intros [= <- <-].
  cbn [files]. rewrite lookup_insert_eq. eexists. split; [done|]. cbn. lia.
Qed.

(** C1.  The consensus stage asks for the ensemble tool exactly when its
    output VCF does not exist (or is empty); the modification markers of
    the per-caller inputs play no part.  The overlap filter, which does
    use the stage marker, is skipped when its output exists and is not
    older than its input, and otherwise, when it returns, has written its
    output anew. *)
Theorem stage_skipping_rules :
  (∀ (E : externals) batch_id vrn_files config_file base_dir ref_file (w : world),
     let out_vcf_file := Py.path_join base_dir (batch_id +:+ "-ensemble.vcf") in
     called (Ensemble._run_ensemble E batch_id vrn_files config_file base_dir
               ref_file w).2
     = called w ++ (if FS.file_exists w out_vcf_file then []
                    else [VariantEnsemble vrn_files out_vcf_file ref_file config_file
                            base_dir]))
  ∧ (∀ (E : externals) in_file out_dir (w : world),
       let out_file := PureCN.nooverlaps_name E in_file out_dir in
       if FS.file_uptodate w out_file in_file
       then PureCN._remove_overlaps E in_file out_dir w = (Ok out_file, w)
       else ∀ r w', PureCN._remove_overlaps E in_file out_dir w = (Ok r, w') →
              ∃ f', files w' !! out_file = Some f' ∧ clock w < mtime f').
Proof.
  split.
  - intros. apply run_ensemble_called.
  - intros E in_file out_dir w. cbn zeta.
    destruct (FS.file_uptodate w _ in_file) eqn:Hup.
    + by apply remove_overlaps_uptodate.
    + intros r w'. by apply remove_overlaps_rewrites.
Qed.

Lemma stage_skipping_rules_witness :
  ∃ f', files (PureCN._remove_overlaps Example.E0 "in/t.bed" "out" Example.w_bed).2
          !! "out/t-nooverlaps.bed" = Some f'
        ∧ clock Example.w_bed < mtime f'.
Proof.
  pose proof (proj2 stage_skipping_rules Example.E0 "in/t.bed" "out" Example.w_bed) as H.
  cbn zeta in H.
  replace (FS.file_uptodate Example.w_bed
             (PureCN.nooverlaps_name Example.E0 "in/t.bed" "out") "in/t.bed")
    with false in H by (by vm_compute).
  apply (H "out/t-nooverlaps.bed"
           (PureCN._remove_overlaps Example.E0 "in/t.bed" "out" Example.w_bed).2).
  by vm_compute.
Defined.

(** C1, as worded, fails for the consensus stage: with an output VCF
    older than one of the per-caller inputs the tool is not run again. *)
Lemma stale_consensus_is_kept :
  ¬ Spec.newer_input_reruns Example.E0 "b1" [Some "b1-gatk.vcf"; Some "b1-freebayes.vcf"]
      "work/ensemble/b1/config/b1-ensemble.yaml" "work/ensemble/b1" "ref.fa"
      Example.w_stale.
Proof.
  intros H. unfold Spec.newer_input_reruns in H.
  assert (VariantEnsemble [Some "b1-gatk.vcf"; Some "b1-freebayes.vcf"]
            "work/ensemble/b1/b1-ensemble.vcf" "ref.fa"
            "work/ensemble/b1/config/b1-ensemble.yaml" "work/ensemble/b1"
          ∈ ([] : list ext)) as Hin.
  { apply H. exists "b1-gatk.vcf", (File 5 Ensemble.empty_vcf), (File 1 Ensemble.empty_vcf).
    split; [by left|]. split; [by vm_compute|]. split; [by vm_compute|]. cbn. lia. }
  by apply elem_of_nil in Hin.
Qed.

Lemma any_has_variants_none vrn_files w :
  Forall (λ f, Ensemble.vcf_has_variants f w = (Ok false, w)) vrn_files →
  Ensemble.any_has_variants vrn_files w = (Ok false, w).
Proof.
  induction 1 as [|f fs Hf Hfs IH]; [done|].
  cbn. unfold mbind, M_bind. by rewrite Hf.
Qed.

(** C2.  When, after the merger stage, none of the per-caller
    representative files holds a variant record, [combine_calls] goes on
    without any further call to a collaborator: neither consensus
    strategy is tried, no configuration is written, nothing is validated.
    It writes an empty VCF named '<batch_id>-ensemble.vcf' in the
    ensemble directory of the batch and returns for the batch a result
    with caller "ensemble", that file, and no BED file.  The only calls
    made are those of the merger stage, which runs before the check. *)
Theorem all_empty_batch_is_synthesized :
  ∀ (E : externals) batch_id samples data (w w1 : world) caller_names vrn_files bams,
    Ensemble._organize_variants E samples batch_id w
    = (Ok (caller_names, vrn_files, bams), w1) →
    Forall (λ f, Ensemble.vcf_has_variants f w1 = (Ok false, w1)) vrn_files →
    let base_dir := Py.path_join (Py.path_join (dirs_work data) "ensemble") batch_id in
    let out_vcf_file := Py.path_join base_dir (batch_id +:+ "-ensemble.vcf") in
    let w2 := World (<[out_vcf_file := File (clock w1) Ensemble.empty_vcf]> (files w1))
                    (clock w1 + 1) (called w1) in
    Ensemble.combine_calls E batch_id samples data w
    = (Ok [(batch_id, Variant "ensemble" (Some out_vcf_file) None None None)], w2)
    ∧ Ensemble.vcf_has_variants (Some out_vcf_file) w2 = (Ok false, w2).
Proof.
  intros E batch_id samples data w w1 cn vf bams Horg Hall. cbn zeta. split.
  - unfold Ensemble.combine_calls.
    destruct samples as [|s0 rest]; [done|].
    cbn [Ensemble.first]. unfold FS.safe_makedir, lift.
    unfold mbind at 1, M_bind at 1. unfold mbind at 1, M_bind at 1.
    unfold mret at 1, M_ret at 1. unfold mbind at 1, M_bind at 1.
    rewrite Horg. unfold mbind at 1, M_bind at 1.
    by rewrite (any_has_variants_none vf w1 Hall).
  - unfold Ensemble.vcf_has_variants, gets. cbn [files].
    by rewrite lookup_insert_eq.
Qed.

Lemma all_empty_batch_is_synthesized_witness :
  let w1 := (Ensemble._organize_variants Example.E0 [Example.A; Example.B] "fam1"
               Example.w_headers).2 in
  let w2 := World (<["work/ensemble/fam1/fam1-ensemble.vcf"
                     := File (clock w1) Ensemble.empty_vcf]> (files w1))
                  (clock w1 + 1) (called w1) in
  Ensemble.combine_calls Example.E0 "fam1" [Example.A; Example.B] Example.A
    Example.w_headers
  = (Ok [("fam1", Variant "ensemble" (Some "work/ensemble/fam1/fam1-ensemble.vcf")
                    None None None)], w2)
  ∧ Ensemble.vcf_has_variants (Some "work/ensemble/fam1/fam1-ensemble.vcf") w2
    = (Ok false, w2).
Proof.
  apply (all_empty_batch_is_synthesized Example.E0 "fam1" [Example.A; Example.B]
           Example.A Example.w_headers _ ["gatk"; "freebayes"]
           [Some "work/fam1-gatk.vcf"; Some "work/fam1-freebayes.vcf"] []).
  - by vm_compute.
  - repeat constructor; by vm_compute.
Defined.

(** C2, as worded, fails: for a batch of two samples whose files hold no
    variant record the merger, which runs before the check, asks the
    multi-sample merge for each caller. *)
Lemma merges_run_before_the_empty_check :
  ¬ Spec.all_empty_calls_nothing Example.E0 "fam1" [Example.A; Example.B] Example.A
      Example.w_headers.
Proof.
  intros H. unfold Spec.all_empty_calls_nothing in H.
  assert (called (Ensemble.combine_calls Example.E0 "fam1" [Example.A; Example.B]
                    Example.A Example.w_headers).2
          = called Example.w_headers) as Hc.
  { apply H.
    - intros d v Hd Hv. apply list_elem_of_In in Hd.
      destruct Hd as [<-|[<-|[]]]; apply list_elem_of_In in Hv;
        destruct Hv as [<-|[<-|[]]]; by vm_compute.
    - intros r w1 f Hr Hf. vm_compute in Hr. injection Hr as <- <-.
      apply list_elem_of_In in Hf. destruct Hf as [<-|[<-|[]]]; by vm_compute. }
  by vm_compute in Hc.
Qed.

(** ** Further results on the interval overlap filter *)

Section OverlapFilterMore.

Import PureCN.

Lemma scan_step_shape st line st' :
  scan_step st line = Ok st' →
  prev_line st' = Some line
  ∧ ∃ d, written st' = written st ++ d ∧ d `sublist_of` Props.pending st.
Proof.
  unfold scan_step, Props.pending.
  destruct (prev_line st) as [p|] eqn:Hp.
  - destruct (Py.truthy (Some p)).
    + destruct (overlaps p line) as [[|]|]; [| |done]; cbn; intros [= <-]; cbn.
      * split; [done|]. exists []. split; [by rewrite app_nil_r|]. apply sublist_nil_l.
      * split; [done|]. by exists [p].
    + cbn. intros [= <-]. cbn. split; [done|]. exists [].
      split; [by rewrite app_nil_r|]. apply sublist_nil_l.
  - cbn. intros [= <-]. cbn. split; [done|]. exists []. by rewrite app_nil_r.
Qed.

Lemma scan_loop_shape rest : ∀ st st',
  scan_loop st rest = Ok st' →
  (∃ kept, written st' ++ Props.pending st' = written st ++ kept
           ∧ kept `sublist_of` Props.pending st ++ rest)
  ∧ prev_line st' = match last rest with Some l => Some l | None => prev_line st end.
Proof.
  induction rest as [|line rest IH]; intros st st' H.
  - injection H as <-. split; [|done]. exists (Props.pending st).
    split; [done|]. by rewrite app_nil_r.
  - cbn [scan_loop] in H. destruct (scan_step st line) as [s1|] eqn:Hs; [|done].
    cbn in H. apply scan_step_shape in Hs as (Hp1 & d & Hw1 & Hd).
    apply IH in H as [(kept & Hk & Hsub) Hlast]. split.
    + exists (d ++ kept). rewrite Hk, Hw1, <- app_assoc. split; [done|].
      apply sublist_app; [done|]. unfold Props.pending in Hsub. by rewrite Hp1 in Hsub.
    + rewrite Hlast, Hp1. rewrite last_cons. by destruct (last rest).
Qed.

Lemma scan_step_errors st line e :
  scan_step st line = Raise e → e = ValueError.
Proof.
  unfold scan_step. destruct (Py.truthy (prev_line st)); [|done].
  destruct (prev_line st) as [p|]; [|done].
  unfold overlaps, fields3.
  destruct (take 3 (Py.split Py.tab 4 p)) as [|? [|? [|? [|? ?]]]]; cbn;
    try (by intros [= <-]).
  destruct (take 3 (Py.split Py.tab 4 line)) as [|? [|? [|? [|? ?]]]]; cbn;
    try (by intros [= <-]).
  destruct (String.eqb _ _); cbn; [|done].
  unfold Py.int.
  repeat (match goal with
          | |- context [match ?x with _ => _ end] => destruct x; cbn
          end; try done; try (by intros [= <-])).
Qed.

End OverlapFilterMore.

Lemma overlap_false_clear x y :
  Spec.well_formed x → Spec.well_formed y →
  (Spec.overlap x y = false ↔ Props.clear_of x y).
Proof.
  intros [[[cx sx] ex] Hx] [[[cy sy] ey] Hy].
  unfold Spec.overlap, Props.clear_of. rewrite Hx, Hy.
  destruct (String.eqb_spec cx cy) as [->|Hne]; cbn.
  - destruct (Z.gtb_spec ex sy) as [Hlt|Hle]; split; try done; try (intros; lia).
    intros Hc. specialize (Hc eq_refl). lia.
  - split; [by intros _ ?|done].
Qed.

Lemma resolve_from_clear rest : ∀ p,
  Forall Spec.well_formed (p :: rest) → Props.starts_sorted (p :: rest) →
  ∃ f tl, Spec.resolve_from p rest = f :: tl
          ∧ Spec.well_formed f
          ∧ (∀ x, Spec.well_formed x → Props.clear_of x p → Props.clear_of x f)
          ∧ Props.no_adjacent_overlap (f :: tl).
Proof.
  induction rest as [|y r IH]; intros p Hwf Hs.
  - exists p, []. inversion Hwf; subst. by cbn.
  - inversion Hwf as [|? ? Hp Hwf']; subst. inversion Hwf' as [|? ? Hy _]; subst.
    destruct Hs as [Hpy Hs].
    destruct (IH y Hwf' Hs) as (f & tl & Hr & Hf & Hcl & Hno).
    cbn [Spec.resolve_from]. destruct (Spec.overlap p y) eqn:Ho.
    + exists f, tl. split; [done|]. split; [done|]. split; [|done].
      intros x Hx Hxp. apply Hcl; [done|].
      destruct Hx as [[[cx sx] ex] Hx], Hp as [[[cp sp] ep] Hp'],
        Hy as [[[cy sy] ey] Hy'].
      unfold Props.clear_of, Spec.overlap in *. rewrite ?Hx, ?Hp', ?Hy' in *.
      apply andb_true_iff in Ho as [Hc Ho]. apply String.eqb_eq in Hc. subst cy.
      intros ->. specialize (Hxp eq_refl). specialize (Hpy eq_refl). lia.
    + exists p, (f :: tl). rewrite Hr. split; [done|]. split; [done|].
      split; [done|]. split; [|done].
      apply overlap_false_clear; [done..|]. apply Hcl; [done|].
      by apply overlap_false_clear.
Qed.

(** X1.  On lines that parse and whose starts do not decrease along a
    chromosome, the filter leaves no line that overlaps the line written
    after it: what [_remove_overlaps] is for. *)
Theorem remove_overlaps_output_is_overlap_free :
  ∀ lines : list string,
    lines ≠ [] → Forall Spec.well_formed lines → Props.starts_sorted lines →
    ∃ out, PureCN.remove_overlaps_lines lines = Ok out
           ∧ Props.no_adjacent_overlap out.
Proof.
  intros [|p rest] Hne Hwf Hs; [done|].
  destruct (resolve_from_clear rest p Hwf Hs) as (f & tl & Hr & _ & _ & Hno).
  exists (f :: tl). split; [|done].
  inversion Hwf as [|? ? Hp Hrest]; subst.
  unfold PureCN.remove_overlaps_lines. cbn [PureCN.scan_loop].
  unfold PureCN.scan_step. cbn.
  rewrite <- Hr. apply (scan_loop_pending rest p [] Hp Hrest).
Qed.

Lemma remove_overlaps_output_is_overlap_free_witness :
  ∃ out, PureCN.remove_overlaps_lines
           [bed_line "chr1" "100" "200"; bed_line "chr1" "150" "300";
            bed_line "chr1" "160" "310"; bed_line "chr2" "5" "50"] = Ok out
         ∧ Props.no_adjacent_overlap out.
Proof.
  apply remove_overlaps_output_is_overlap_free.
  - discriminate.
  - repeat constructor; eexists; vm_compute; reflexivity.
  - vm_compute. repeat split; intros; lia || discriminate || done.
Defined.

Lemma remove_overlaps_lines_shape (lines out : list string) :
  PureCN.remove_overlaps_lines lines = Ok out →
  out `sublist_of` lines ∧ last out = last lines ∧ out ≠ [].
Proof.
  intros H. unfold PureCN.remove_overlaps_lines in H.
  destruct (PureCN.scan_loop _ lines) as [st|] eqn:Hs; [|done]. cbn in H.
  apply scan_loop_shape in Hs as [(kept & Hk & Hsub) Hlast].
  unfold PureCN.finish in H. unfold Props.pending in Hk.
  destruct (PureCN.prev_line st) as [p|] eqn:Hp; [|done].
  injection H as <-. cbn in Hk, Hsub, Hlast. rewrite Hk.
  split; [done|]. split.
  - rewrite <- Hk, last_snoc. by destruct (last lines).
  - rewrite <- Hk. by destruct (PureCN.written st).
Qed.

(** X2.  Whatever the lines are, when the filter returns it has written
    lines of the input only, in their order, and the last line of the
    input is the last line written: the output is never empty and never
    longer than the input. *)
Theorem remove_overlaps_output_is_sublist :
  ∀ (lines out : list string),
    PureCN.remove_overlaps_lines lines = Ok out →
    out `sublist_of` lines
    ∧ last out = last lines
    ∧ out ≠ []
    ∧ (length out ≤ length lines)%nat.
Proof.
  intros lines out H.
  destruct (remove_overlaps_lines_shape lines out H) as (Hsub & Hlast & Hne).
  repeat split; [done|done|done|by apply sublist_length].
Qed.

Lemma remove_overlaps_output_is_sublist_witness :
  [bed_line "chr1" "150" "300"] `sublist_of`
    [bed_line "chr1" "100" "200"; bed_line "chr1" "150" "300"]
  ∧ last [bed_line "chr1" "150" "300"]
    = last [bed_line "chr1" "100" "200"; bed_line "chr1" "150" "300"]
  ∧ [bed_line "chr1" "150" "300"] ≠ []
  ∧ (length [bed_line "chr1" "150" "300"]
     ≤ length [bed_line "chr1" "100" "200"; bed_line "chr1" "150" "300"])%nat.
Proof.
  apply remove_overlaps_output_is_sublist. by vm_compute.
Defined.

Lemma scan_loop_errors lines : ∀ st e,
  PureCN.scan_loop st lines = Raise e → e = ValueError.
Proof.
  induction lines as [|l r IH]; intros st e H; [done|].
  cbn in H. destruct (PureCN.scan_step st l) as [s1|e1] eqn:Hs.
  - by apply (IH s1).
  - cbn in H. injection H as <-. by apply scan_step_errors in Hs.
Qed.

(** X3.  The filter raises [TypeError] exactly on an input without
    lines; every other failure is the [ValueError] of a line that does not
    split into three fields or of a coordinate that is no integer. *)
Theorem remove_overlaps_errors :
  ∀ lines : list string,
    (PureCN.remove_overlaps_lines lines = Raise TypeError ↔ lines = [])
    ∧ (∀ e, PureCN.remove_overlaps_lines lines = Raise e →
         e = TypeError ∨ e = ValueError).
Proof.
  intros lines.
  assert (∀ e, PureCN.remove_overlaps_lines lines = Raise e →
             (e = TypeError ∧ lines = []) ∨ e = ValueError) as Hall.
  { intros e H. unfold PureCN.remove_overlaps_lines in H.
    destruct (PureCN.scan_loop _ lines) as [st|e1] eqn:Hs.
    - cbn in H. unfold PureCN.finish in H.
      destruct (PureCN.prev_line st) as [p|] eqn:Hp; [done|]. injection H as <-.
      left. split; [done|].
      apply scan_loop_shape in Hs as [_ Hlast]. rewrite Hp in Hlast. cbn in Hlast.
      destruct lines as [|l r] using rev_ind; [done|].
      by rewrite last_snoc in Hlast.
    - cbn in H. injection H as <-. right. by apply scan_loop_errors in Hs. }
  split; [split|].
  - intros H. by destruct (Hall _ H) as [[_ ?]|?].
  - by intros ->.
  - intros e H. destruct (Hall e H) as [[? _]|?]; auto.
Qed.

Lemma remove_overlaps_errors_witness :
  ValueError = TypeError ∨ ValueError = ValueError.
Proof.
  apply (proj2 (remove_overlaps_errors ["chr1"; bed_line "chr1" "1" "2"]) ValueError).
  by vm_compute.
Defined.

Lemma rev_app_nonempty s : ∀ t, t ≠ "" → String.rev_app s t ≠ "".
Proof. induction s as [|c s IH]; intros t Ht; [done|]. cbn. by apply IH. Qed.

Lemma rev_cons_nonempty c s : String.rev (String c s) ≠ "".
Proof. unfold String.rev. cbn. by apply rev_app_nonempty. Qed.

Lemma readlines_from_nonempty s : ∀ cur,
  Forall (λ l, l ≠ "") (Py.readlines_from cur s).
Proof.
  induction s as [|c s IH]; intros cur; cbn.
  - destruct cur; constructor; [apply rev_cons_nonempty|constructor].
  - destruct (Ascii.eqb c Py.nl); [|apply IH].
    constructor; [apply rev_cons_nonempty|apply IH].
Qed.

Lemma concat_last_nonempty (l : list string) x :
  last l = Some x → x ≠ "" → String.concat "" l ≠ "".
Proof.
  induction l as [|y [|z r] IH]; intros Hl Hx; [done| |].
  - cbn in *. congruence.
  - change (String.concat "" (y :: z :: r))
      with (y +:+ "" +:+ String.concat "" (z :: r)).
    rewrite last_cons_cons in Hl. specialize (IH Hl Hx).
    destruct y; cbn; [done|done].
Qed.

Section OverlapFile.

Variable E : externals.
Variables (in_file out_dir : string).

Local Abbreviation out_file := (PureCN.nooverlaps_name E in_file out_dir).
Local Abbreviation tx := (tx_name E (PureCN.nooverlaps_name E in_file out_dir)).

Lemma remove_overlaps_run w :
  FS.file_uptodate w out_file in_file = false →
  PureCN._remove_overlaps E in_file out_dir w
  = match files w !! in_file with
    | None => (Raise IOError, World (delete tx (files w)) (clock w) (called w))
    | Some f =>
        match PureCN.remove_overlaps_lines (Py.readlines (content f)) with
        | Raise e => (Raise e, World (delete tx (files w)) (clock w + 1) (called w))
        | Ok lines =>
            (Ok out_file,
             World (<[out_file := File (clock w + 1) (String.concat "" lines)]>
                      (delete tx (files w)))
                   (clock w + 1 + 1) (called w))
        end
    end.
Proof.
  intros Hup. unfold PureCN._remove_overlaps. munfold. rewrite Hup.
  unfold FS.file_transaction, FS.read, FS.write, FS.move, FS.remove. munfold.
  destruct (files w !! in_file) as [f|]; [|done].
  destruct (PureCN.remove_overlaps_lines _) as [lines|e]; cbn [files clock called snd].
  - rewrite lookup_insert_eq. cbn [files clock called].
    by rewrite !delete_insert_eq.
  - by rewrite delete_insert_eq.
Qed.

End OverlapFile.

(** X4.  When [_remove_overlaps] fails, whether on a missing input, on
    an input without lines or on a malformed line, the only change to the
    files is that the temporary file is gone: the output file is as it was
    and no collaborator was called. *)
Theorem remove_overlaps_failure_is_clean :
  ∀ (E : externals) in_file out_dir (w w' : world) e,
    PureCN._remove_overlaps E in_file out_dir w = (Raise e, w') →
    files w' = delete (tx_name E (PureCN.nooverlaps_name E in_file out_dir)) (files w)
    ∧ called w' = called w.
Proof.
  intros E in_file out_dir w w' e H.
  destruct (FS.file_uptodate w (PureCN.nooverlaps_name E in_file out_dir) in_file)
    eqn:Hup.
  - by rewrite remove_overlaps_uptodate in H.
  - rewrite remove_overlaps_run in H by done.
    destruct (files w !! in_file) as [f|]; [|by injection H as <- <-].
    destruct (PureCN.remove_overlaps_lines _); [done|]. by injection H as <- <-.
Qed.

Lemma remove_overlaps_failure_is_clean_witness :
  files (PureCN._remove_overlaps Example.E0 "in/t.bed" "out" Example.w_blank_bed).2
  = delete (tx_name Example.E0 (PureCN.nooverlaps_name Example.E0 "in/t.bed" "out"))
      (files Example.w_blank_bed)
  ∧ called (PureCN._remove_overlaps Example.E0 "in/t.bed" "out" Example.w_blank_bed).2
    = called Example.w_blank_bed.
Proof.
  apply (remove_overlaps_failure_is_clean Example.E0 "in/t.bed" "out"
           Example.w_blank_bed _ TypeError).
  by vm_compute.
Defined.

(** X5.  A run of [_remove_overlaps] that is not skipped and returns has
    put exactly the filtered lines into the output file, stamped anew, and
    changed no other file but the temporary one.  When the input is not
    from the future, running it again at once is a skip that changes
    nothing. *)
Theorem remove_overlaps_then_skip :
  ∀ (E : externals) in_file out_dir (w w' : world) r f,
    let out_file := PureCN.nooverlaps_name E in_file out_dir in
    let tx := tx_name E out_file in
    FS.file_uptodate w out_file in_file = false →
    PureCN._remove_overlaps E in_file out_dir w = (Ok r, w') →
    files w !! in_file = Some f →
    (r = out_file
     ∧ ∃ lines,
         PureCN.remove_overlaps_lines (Py.readlines (content f)) = Ok lines
         ∧ files w' = <[out_file := File (clock w + 1) (String.concat "" lines)]>
                        (delete tx (files w)))
    ∧ (mtime f ≤ clock w + 1 → in_file ≠ out_file → in_file ≠ tx →
       PureCN._remove_overlaps E in_file out_dir w' = (Ok out_file, w')).
Proof.
  intros E in_file out_dir w w' r f out_file tx Hup H Hf.
  rewrite remove_overlaps_run in H by done. rewrite Hf in H.
  destruct (PureCN.remove_overlaps_lines _) as [lines|] eqn:Hl; [|done].
  injection H as <- <-. split; [split; [done|by exists lines]|].
  intros Hm Hio Hit. apply remove_overlaps_uptodate.
  apply remove_overlaps_lines_shape in Hl as (_ & Hlast & Hne).
  unfold FS.file_uptodate, FS.file_exists. cbn [files].
  fold out_file. fold tx.
  rewrite lookup_insert_eq, lookup_insert_ne, lookup_delete_ne, Hf by done.
  cbn [content mtime].
  assert (∃ x, last (Py.readlines (content f)) = Some x ∧ x ≠ "") as (x & Hx & Hxne).
  { pose proof (readlines_from_nonempty (content f) "") as Hall.
    fold (Py.readlines (content f)) in Hall.
    destruct (last (Py.readlines (content f))) as [x|] eqn:Hx.
    - exists x. split; [done|]. rewrite Forall_forall in Hall. apply Hall.
      by apply last_Some_elem_of.
    - destruct lines as [|l ls _] using rev_ind; [done|].
      by rewrite last_snoc in Hlast. }
  assert (String.concat "" lines ≠ "") as Hc.
  { apply (concat_last_nonempty lines x); [by rewrite Hlast|done]. }
  assert (content f ≠ "") as Hcf.
  { intros Hcf. rewrite Hcf in Hx. done. }
  destruct (String.eqb_spec (String.concat "" lines) ""); [done|].
  destruct (String.eqb_spec (content f) ""); [done|]. cbn.
  apply Z.geb_le. lia.
Qed.

Lemma remove_overlaps_then_skip_witness :
  ("out/t-nooverlaps.bed" = PureCN.nooverlaps_name Example.E0 "in/t.bed" "out"
   ∧ ∃ lines,
       PureCN.remove_overlaps_lines
         (Py.readlines (bed_line "chr1" "100" "200" +:+ bed_line "chr1" "150" "300"))
       = Ok lines
       ∧ files (PureCN._remove_overlaps Example.E0 "in/t.bed" "out" Example.w_bed).2
         = <[PureCN.nooverlaps_name Example.E0 "in/t.bed" "out"
             := File (clock Example.w_bed + 1) (String.concat "" lines)]>
             (delete (tx_name Example.E0
                        (PureCN.nooverlaps_name Example.E0 "in/t.bed" "out"))
                (files Example.w_bed)))
  ∧ (3 ≤ clock Example.w_bed + 1 →
     "in/t.bed" ≠ PureCN.nooverlaps_name Example.E0 "in/t.bed" "out" →
     "in/t.bed" ≠ tx_name Example.E0 (PureCN.nooverlaps_name Example.E0 "in/t.bed" "out") →
     PureCN._remove_overlaps Example.E0 "in/t.bed" "out"
       (PureCN._remove_overlaps Example.E0 "in/t.bed" "out" Example.w_bed).2
     = (Ok (PureCN.nooverlaps_name Example.E0 "in/t.bed" "out"),
        (PureCN._remove_overlaps Example.E0 "in/t.bed" "out" Example.w_bed).2)).
Proof.
  apply (remove_overlaps_then_skip Example.E0 "in/t.bed" "out" Example.w_bed
           (PureCN._remove_overlaps Example.E0 "in/t.bed" "out" Example.w_bed).2
           "out/t-nooverlaps.bed"
           (File 3 (bed_line "chr1" "100" "200" +:+ bed_line "chr1" "150" "300")));
    by vm_compute.
Defined.

(** ** Further results on the batch grouper *)

Section GroupingMore.

Import Ensemble.

Context {A : Type} (view : A → sample) (check : A → bool).

Lemma collision_cons (K K1 : string → Prop) d l :
  (∀ n, K1 n ↔ K n ∨ (check d = true ∧ Spec.keyed n (view d) = true)) →
  ¬ (check d = true ∧ Spec.untagged (view d) = true
     ∧ ∃ n, name_last (view d) = Ok n ∧ K n) →
  Props.collision view check K (d :: l) ↔ Props.collision view check K1 l.
Proof.
  intros HK Hd. split.
  - intros (pre & d0 & post & n & Heq & Hc & Hu & Hn & Hk).
    destruct pre as [|p pre]; cbn in Heq; injection Heq as <- ->.
    + destruct Hk as [Hk|(d' & Hin & _)]; [|by apply elem_of_nil in Hin].
      destruct Hd. eauto.
    + exists pre, d0, post, n. do 4 (split; [done|]).
      destruct Hk as [Hk|(d' & Hin & Hc' & Hk')].
      * left. apply HK. by left.
      * apply elem_of_cons in Hin as [->|Hin].
        -- left. apply HK. by right.
        -- right. by exists d'.
  - intros (pre & d0 & post & n & -> & Hc & Hu & Hn & Hk).
    exists (d :: pre), d0, post, n. do 4 (split; [done|]).
    destruct Hk as [Hk|(d' & Hin & Hc' & Hk')].
    + apply HK in Hk as [Hk|[Hc' Hk']]; [by left|].
      right. exists d. split; [by left|done].
    + right. exists d'. split; [by right|done].
Qed.

Lemma collision_nil K : ¬ Props.collision view check K [].
Proof. intros (pre & d & post & n & Heq & _). by destruct pre. Qed.

Lemma group_loop_outcome l : ∀ g e,
  (∀ d, d ∈ l → check d = true → Spec.untagged (view d) = true →
     name (view d) ≠ []) →
  (Props.collision view check (λ n, is_Some (g !! n)) l
   ∧ group_loop view check (g, e) l = Raise AssertionError)
  ∨ (¬ Props.collision view check (λ n, is_Some (g !! n)) l
     ∧ ∃ g' e', group_loop view check (g, e) l = Ok (g', e')).
Proof.
  induction l as [|d l IH]; intros g e Hnames.
  - right. split; [apply collision_nil|]. by eexists _, _.
  - assert (∀ d', d' ∈ l → check d' = true → Spec.untagged (view d') = true →
              name (view d') ≠ []) as Hnames'.
    { intros d' Hin. apply Hnames. by right. }
    cbn [group_loop]. unfold group_step.
    destruct (check d) eqn:Hc.
    + destruct (Py.truthy (batch_tag (view d))) eqn:Ht.
      * destruct (batch_tag (view d)) as [b|] eqn:Hb; [|done]. cbn.
        pose proof (collision_cons (λ n, is_Some (g !! n))
          (λ n, is_Some (<[b := default [] (g !! b) ++ [d]]> g !! n)) d l) as Hcc.
        rewrite Hcc.
        -- apply IH, Hnames'.
        -- intros n. rewrite lookup_insert_is_Some, (keyed_tag (view d) b n Ht Hb).
           destruct (String.eqb_spec b n) as [->|Hne]; [intuition congruence|].
           split; [intuition congruence|]. intros [?|[_ ?]]; [|done]. by right.
        -- intros (_ & Hu & _). unfold Spec.untagged in Hu. by rewrite Hb, Ht in Hu.
      * assert (Spec.untagged (view d) = true) as Hu
          by (unfold Spec.untagged; by rewrite Ht).
        assert (∃ n, name_last (view d) = Ok n) as [n Hn].
        { unfold name_last.
          destruct (last (name (view d))) as [n|] eqn:Hl; [by eexists|].
          apply last_None in Hl. destruct (Hnames d); [by left|done..]. }
        rewrite Hn. cbn.
        destruct (bool_decide (is_Some (g !! n))) eqn:Hin.
        -- apply bool_decide_eq_true in Hin. left. split; [|done].
           exists [], d, l, n. do 4 (split; [done|]). by left.
        -- apply bool_decide_eq_false in Hin.
           pose proof (collision_cons (λ n, is_Some (g !! n))
             (λ n', is_Some (<[n := [d]]> g !! n')) d l) as Hcc.
           rewrite Hcc.
           ++ apply IH, Hnames'.
           ++ intros n'. rewrite lookup_insert_is_Some, (keyed_name (view d) n n' Ht Hn).
              destruct (String.eqb_spec n n') as [->|Hne]; [intuition congruence|].
              split; [intuition congruence|]. intros [?|[_ ?]]; [|done]. by right.
           ++ intros (_ & _ & n' & Hn' & Hk). rewrite Hn in Hn'.
              injection Hn' as <-. done.
    + cbn. pose proof (collision_cons (λ n, is_Some (g !! n))
             (λ n, is_Some (g !! n)) d l) as Hcc.
      rewrite Hcc.
      * apply IH, Hnames'.
      * intros n. rewrite Hc. intuition congruence.
      * rewrite Hc. intuition congruence.
Qed.

Lemma heads_mapM_first (samples : list (list A)) datas :
  Forall2 (λ x d, head x = Some d) samples datas →
  mapM_res first samples = Ok datas.
Proof.
  induction 1 as [|x d xs ds Hx _ IH]; [done|].
  cbn. destruct x as [|y x]; [done|]. injection Hx as ->. cbn. by rewrite IH.
Qed.

Lemma mapM_first_empty (samples : list (list A)) :
  [] ∈ samples → mapM_res first samples = Raise IndexError.
Proof.
  induction samples as [|x r IH]; intros Hin; [by apply elem_of_nil in Hin|].
  apply elem_of_cons in Hin as [<-|Hin]; [done|].
  cbn. destruct x as [|y x]; [done|]. cbn. by rewrite IH.
Qed.

Lemma group_loop_nonempty l : ∀ g e g' e',
  group_loop view check (g, e) l = Ok (g', e') →
  (∀ k xs, g !! k = Some xs → xs ≠ []) →
  ∀ k xs, g' !! k = Some xs → xs ≠ [].
Proof.
  induction l as [|d l IH]; intros g e g' e' H Hg; [by injection H as <- <-|].
  cbn [group_loop] in H.
  destruct (group_step view check (g, e) d) as [[g1 e1]|] eqn:Hs; [|done].
  cbn in H. apply (IH _ _ _ _ H). clear H IH.
  unfold group_step in Hs. destruct (check d).
  - destruct (Py.truthy (batch_tag (view d))).
    + destruct (batch_tag (view d)) as [b|]; [|by injection Hs as <- <-].
      injection Hs as <- <-. intros k xs Hk.
      apply lookup_insert_Some in Hk as [[_ <-]|[_ Hk]]; [|by eapply Hg].
      by destruct (default [] (g !! b)).
    + destruct (name_last (view d)) as [n|]; [|done]. cbn in Hs.
      destruct (bool_decide _); [done|]. injection Hs as <- <-. intros k xs Hk.
      apply lookup_insert_Some in Hk as [[_ <-]|[_ Hk]]; [done|by eapply Hg].
  - injection Hs as <- <-. apply Hg.
Qed.

Lemma group_loop_keys l : ∀ g e g' e',
  group_loop view check (g, e) l = Ok (g', e') →
  ∀ d, d ∈ l → check d = true → ∃ k, Spec.key_of (view d) = Ok k.
Proof.
  induction l as [|d0 l IH]; intros g e g' e' H d Hin Hc;
    [by apply elem_of_nil in Hin|].
  cbn [group_loop] in H.
  destruct (group_step view check (g, e) d0) as [[g1 e1]|] eqn:Hs; [|done].
  cbn in H. apply elem_of_cons in Hin as [->|Hin]; [|by eapply IH].
  unfold group_step in Hs. rewrite Hc in Hs. unfold Spec.key_of.
  destruct (batch_tag (view d0)) as [[|c b]|]; cbn in Hs; [| by eexists |];
    (destruct (name_last (view d0)) as [n|]; [by eexists|done]).
Qed.

End GroupingMore.

Lemma keyed_key_of k d : Spec.keyed k d = true ↔ Spec.key_of d = Ok k.
Proof.
  unfold Spec.keyed. destruct (Spec.key_of d) as [k'|]; [|done].
  rewrite String.eqb_eq. split; congruence.
Qed.

(** X6.  When every wrapper holds a sample and every untagged qualifying
    sample has a name, [_group_by_batches] fails, with the assertion of
    line 83, exactly when some untagged qualifying sample bears as its
    identity the batch identifier of a qualifying sample that comes before
    it; otherwise it returns. *)
Theorem group_by_batches_fails_on_earlier_key_only :
  ∀ (A : Type) (view : A → sample) (check : A → bool)
    (samples : list (list A)) (datas : list A),
    Forall2 (λ x d, head x = Some d) samples datas →
    (∀ d, d ∈ datas → check d = true → Spec.untagged (view d) = true →
       name (view d) ≠ []) →
    (Props.collision view check (λ _, False) datas →
     Ensemble._group_by_batches view samples check = Raise AssertionError)
    ∧ (¬ Props.collision view check (λ _, False) datas →
       ∃ groups extras, Ensemble._group_by_batches view samples check
                        = Ok (groups, extras)).
Proof.
  intros A view check samples datas Hh Hn.
  unfold Ensemble._group_by_batches. rewrite (heads_mapM_first _ _ Hh). cbn.
  assert (∀ l, Props.collision view check (λ _, False) l
               ↔ Props.collision view check
                   (λ n, is_Some ((∅ : gmap string (list A)) !! n)) l) as Heq.
  { intros l. split; intros (pre & d & post & n & H1 & H2 & H3 & H4 & H5);
      exists pre, d, post, n; do 4 (split; [done|]);
      (destruct H5 as [H5|H5]; [|by right]).
    - done.
    - rewrite lookup_empty in H5. by destruct H5. }
  destruct (group_loop_outcome view check datas ∅ [] Hn) as [[Hc ->]|[Hc Hok]].
  - split; [done|]. intros Hno. destruct Hno. by apply Heq.
  - split; [|done]. intros Hcol. destruct Hc. by apply Heq.
Qed.

Lemma group_by_batches_fails_on_earlier_key_only_witness :
  ∃ groups extras,
    Ensemble._group_by_batches id [[Example.F]; [Example.A]] Ensemble._has_ensemble
    = Ok (groups, extras).
Proof.
  apply (proj2 (group_by_batches_fails_on_earlier_key_only sample id
                  Ensemble._has_ensemble [[Example.F]; [Example.A]]
                  [Example.F; Example.A]
                  ltac:(repeat constructor)
                  ltac:(intros d Hd _ _;
                        apply list_elem_of_In in Hd;
                        destruct Hd as [<-|[<-|[]]]; discriminate))).
  intros (pre & d & post & n & Heq & Hc & Hu & Hn & Hk).
  destruct Hk as [[]|(d' & Hin & _ & Hk)].
  destruct pre as [|p [|q pre]]; cbn in Heq.
  - by apply elem_of_nil in Hin.
  - injection Heq as <- <- <-. by vm_compute in Hu.
  - injection Heq as _ _ Heq. by destruct pre.
Defined.

(** X7.  When [_group_by_batches] returns, no group is empty, every
    member of a group is a qualifying sample of the input whose batch
    identifier is the key of the group, and every qualifying sample of the
    input is in the group of its batch identifier. *)
Theorem group_by_batches_partitions :
  ∀ (A : Type) (view : A → sample) (check : A → bool)
    (samples : list (list A)) groups extras,
    Ensemble._group_by_batches view samples check = Ok (groups, extras) →
    ∃ datas,
      Forall2 (λ x d, head x = Some d) samples datas
      ∧ (∀ k xs, groups !! k = Some xs →
           xs ≠ [] ∧ ∀ d, d ∈ xs →
             d ∈ datas ∧ check d = true ∧ Spec.key_of (view d) = Ok k)
      ∧ (∀ d, d ∈ datas → check d = true →
           ∃ k xs, Spec.key_of (view d) = Ok k ∧ groups !! k = Some xs ∧ d ∈ xs).
Proof.
  intros A view check samples groups extras H.
  unfold Ensemble._group_by_batches in H.
  destruct (Ensemble.mapM_res Ensemble.first samples) as [datas|] eqn:Hd; [|done].
  cbn in H. exists datas. split; [by apply mapM_first_heads|].
  pose proof (group_loop_inv view check datas _ _ _ _ H) as (_ & Hm & _).
  split.
  - intros k xs Hk. split.
    + eapply (group_loop_nonempty view check datas _ _ _ _ H); [|exact Hk].
      intros ? ? Hl. by rewrite lookup_empty in Hl.
    + intros d Hin. specialize (Hm k). rewrite Hk, lookup_empty in Hm. cbn in Hm.
      subst xs. apply elem_filter in Hin as [Hin Hc].
      apply andb_true_iff in Hc as [Hc Hkey]. by apply keyed_key_of in Hkey.
  - intros d Hin Hc.
    destruct (group_loop_keys view check datas _ _ _ _ H d Hin Hc) as [k Hk].
    specialize (Hm k). rewrite lookup_empty in Hm. cbn in Hm.
    assert (d ∈ Spec.members view check k datas) as Hmem.
    { apply filter_elem; [done|]. rewrite Hc. by apply keyed_key_of. }
    rewrite <- Hm in Hmem.
    destruct (groups !! k) as [xs|] eqn:Hg; [|by apply elem_of_nil in Hmem].
    cbn in Hmem. by exists k, xs.
Qed.

Lemma group_by_batches_partitions_witness :
  ∃ datas,
    Forall2 (λ x d, head x = Some d) [[Example.A]; [Example.B]; [Example.S1]] datas
    ∧ (∀ k xs, ({[ "fam1" := [Example.A; Example.B] ]} : gmap string (list sample)) !! k
               = Some xs →
         xs ≠ [] ∧ ∀ d, d ∈ xs →
           d ∈ datas ∧ Ensemble._has_ensemble d = true ∧ Spec.key_of (id d) = Ok k)
    ∧ (∀ d, d ∈ datas → Ensemble._has_ensemble d = true →
         ∃ k xs, Spec.key_of (id d) = Ok k
                 ∧ ({[ "fam1" := [Example.A; Example.B] ]}
                      : gmap string (list sample)) !! k = Some xs ∧ d ∈ xs).
Proof.
  apply (group_by_batches_partitions sample id Ensemble._has_ensemble
           [[Example.A]; [Example.B]; [Example.S1]] _ [[Example.S1]]).
  by vm_compute.
Defined.

(** X9.  A wrapper without sample anywhere in the input makes
    [_group_by_batches] fail with [IndexError] before any sample is
    grouped, whatever the other samples are. *)
Theorem group_by_batches_empty_wrapper :
  ∀ (A : Type) (view : A → sample) (check : A → bool) (samples : list (list A)),
    [] ∈ samples →
    Ensemble._group_by_batches view samples check = Raise IndexError.
Proof.
  intros A view check samples Hin. unfold Ensemble._group_by_batches.
  by rewrite mapM_first_empty.
Qed.

Lemma group_by_batches_empty_wrapper_witness :
  Ensemble._group_by_batches id [[Example.A]; []; [Example.F]] Ensemble._has_ensemble
  = Raise IndexError.
Proof.
  apply group_by_batches_empty_wrapper. apply list_elem_of_In. right. by left.
Defined.

(** ** Further results on the parallel step *)

Lemma mapM_res_ok {A B : Type} (f : A → res B) (P : B → Prop) (l : list A) :
  (∀ x, x ∈ l → ∃ y, f x = Ok y ∧ P y) →
  ∃ ys, Ensemble.mapM_res f l = Ok ys ∧ Forall P ys ∧ length ys = length l.
Proof.
  induction l as [|x l IH]; intros H.
  - by exists [].
  - destruct (H x) as (y & Hy & Py); [by left|].
    destruct IH as (ys & Hys & Pys & Hlen); [intros z Hz; apply H; by right|].
    exists (y :: ys). cbn. rewrite Hy. cbn. rewrite Hys. cbn.
    split; [done|]. split; [by constructor|]. by rewrite Hlen.
Qed.

(** X8.  Whenever the grouping of [combine_calls_parallel] returns, the
    argument tuples for [run_parallel] can be built: there is one for each
    group, its list of samples is not empty ([xs[0]] cannot fail), its
    third component is the first of them, every sample in it qualifies,
    and [data] has "ensemble" configured. *)
Theorem parallel_arguments_are_well_formed :
  ∀ (h : store) (samples : list (list nat)) groups extras,
    Ensemble._group_by_batches h samples (λ r, Ensemble._has_ensemble (h r))
    = Ok (groups, extras) →
    ∃ args,
      Ensemble.batch_args h groups = Ok args
      ∧ length args = size groups
      ∧ Forall (Props.batch_argument_ok groups) args.
Proof.
  intros h samples groups extras H.
  unfold Ensemble._group_by_batches in H.
  destruct (Ensemble.mapM_res Ensemble.first samples) as [datas|] eqn:Hd; [|done].
  cbn in H.
  assert (∀ b xs, groups !! b = Some xs →
            xs ≠ [] ∧ ∀ r, r ∈ xs → Ensemble._has_ensemble (h r) = true) as Hg.
  { intros b xs Hb. split.
    - eapply (group_loop_nonempty h _ datas _ _ _ _ H); [|exact Hb].
      intros ? ? Hl. by rewrite lookup_empty in Hl.
    - intros r Hr. by destruct (groups_qualify h _ _ _ _ _ _ _ H Hb Hr). }
  unfold Ensemble.batch_args.
  destruct (mapM_res_ok
              (λ '(b, xs), x0 ← Ensemble.first xs; mret (b, map h xs, h x0))
              (Props.batch_argument_ok groups) (map_to_list groups))
    as (args & Hargs & Hall & Hlen).
  - intros [b xs] Hin. apply elem_of_map_to_list in Hin.
    destruct (Hg b xs Hin) as [Hne Hmem]. destruct xs as [|x0 xs]; [done|].
    eexists. split; [done|]. unfold Props.batch_argument_ok. cbn.
    split; [by eexists|]. split; [done|].
    assert (Forall (λ d, Ensemble._has_ensemble d = true) (h x0 :: map h xs)) as Hq.
    { change (h x0 :: map h xs) with (map h (x0 :: xs)). apply Forall_fmap.
      apply Forall_forall. intros r Hr. by apply Hmem. }
    split; [done|]. inversion Hq as [|? ? Hq0 _]; subst.
    by apply has_ensemble_iff in Hq0 as (_ & ? & _).
  - exists args. split; [done|]. split; [|done].
    by rewrite Hlen, length_map_to_list.
Qed.

Lemma parallel_arguments_are_well_formed_witness :
  ∃ args,
    Ensemble.batch_args Example.h0 {[ "fam1" := [0%nat]; "C" := [2%nat] ]} = Ok args
    ∧ length args = size ({[ "fam1" := [0%nat]; "C" := [2%nat] ]} : gmap string (list nat))
    ∧ Forall (Props.batch_argument_ok {[ "fam1" := [0%nat]; "C" := [2%nat] ]}) args.
Proof.
  apply (parallel_arguments_are_well_formed Example.h0 [[0%nat]; [1%nat]; [2%nat]]
           _ [[1%nat]]).
  by vm_compute.
Defined.

Lemma with_results_qualifies cs d :
  Ensemble._has_ensemble d = true →
  Ensemble._has_ensemble (Spec.with_results cs d) = true.
Proof.
  intros H. apply has_ensemble_iff in H as (Hl & He & x & Hx & Hv).
  apply has_ensemble_iff. cbn. split; [rewrite length_app; lia|]. split; [done|].
  exists x. split; [|done]. apply elem_of_app. by right.
Qed.

Section ProcessedLoop.

Import Ensemble.

Variable groups : gmap string (list nat).

Lemma insert_steps_out c xs : ∀ st,
  (fold_left (insert_step c) xs st).1 = st.1 ++ map (λ r, [r]) xs.
Proof.
  induction xs as [|r xs IH]; intros [out h]; cbn; [by rewrite app_nil_r|].
  rewrite IH. cbn. by rewrite <- app_assoc.
Qed.

Lemma insert_steps_grow c xs : ∀ st r,
  ∃ cs, (fold_left (insert_step c) xs st).2 r = Spec.with_results cs (st.2 r).
Proof.
  induction xs as [|x xs IH]; intros [out h] r; cbn.
  - exists []. by rewrite with_results_nil.
  - destruct (IH (out ++ [[x]], <[x := insert_callinfo c (h x)]> h) r) as [cs Hcs].
    rewrite Hcs. cbn. destruct (decide (r = x)) as [->|Hne].
    + rewrite fn_lookup_insert. exists (cs ++ [c]). unfold Spec.with_results. cbn.
      by rewrite <- app_assoc.
    + rewrite fn_lookup_insert_ne by done. by exists cs.
Qed.

Lemma insert_steps_member c xs : ∀ st r,
  r ∈ xs → c ∈ variants ((fold_left (insert_step c) xs st).2 r).
Proof.
  induction xs as [|x xs IH]; intros [out h] r Hin; [by apply elem_of_nil in Hin|].
  cbn. destruct (decide (r ∈ xs)) as [Hr|Hr]; [by apply IH|].
  apply elem_of_cons in Hin as [->|Hin]; [|done].
  destruct (insert_steps_grow c xs (out ++ [[x]], <[x := insert_callinfo c (h x)]> h) x)
    as [cs ->]. cbn. rewrite fn_lookup_insert. cbn. apply elem_of_app. right. by left.
Qed.

Lemma processed_steps_grow ps : ∀ st r,
  ∃ cs, (fold_left (processed_step groups) ps st).2 r = Spec.with_results cs (st.2 r).
Proof.
  induction ps as [|[b c] ps IH]; intros st r; cbn [fold_left].
  - exists []. by rewrite with_results_nil.
  - destruct (IH (processed_step groups st (b, c)) r) as [cs ->].
    unfold processed_step.
    destruct (insert_steps_grow c (default [] (groups !! b)) st r) as [cs' ->].
    exists (cs ++ cs'). unfold Spec.with_results. cbn. by rewrite <- app_assoc.
Qed.

End ProcessedLoop.

Lemma processed_loop_refs (groups : gmap string (list nat))
    (processed : list (string * variant)) : ∀ (out : list (list nat)) (h : store),
  (fold_left (Ensemble.processed_step groups) processed (out, h)).1
  = out ++ Props.processed_refs groups processed
  ∧ ∀ r, ∃ cs, (fold_left (Ensemble.processed_step groups) processed (out, h)).2 r
               = Spec.with_results cs (h r).
Proof.
  unfold Props.processed_refs.
  induction processed as [|[b0 c0] ps IH]; intros out h.
  - cbn. split; [by rewrite app_nil_r|]. intros r. exists []. by rewrite with_results_nil.
  - cbn [fold_left map concat]. unfold Ensemble.processed_step at 2 4.
    pose proof (insert_steps_out c0 (default [] (groups !! b0)) (out, h)) as Ho.
    pose proof (insert_steps_grow c0 (default [] (groups !! b0)) (out, h)) as Hgrow.
    destruct (fold_left (Ensemble.insert_step c0) (default [] (groups !! b0)) (out, h))
      as [out1 h1].
    destruct (IH out1 h1) as [Hout Hst]. cbn in Ho, Hgrow. split.
    + rewrite Hout, Ho. by rewrite <- app_assoc.
    + intros r. destruct (Hst r) as [cs ->]. destruct (Hgrow r) as [cs' ->].
      exists (cs ++ cs'). unfold Spec.with_results. cbn. by rewrite <- app_assoc.
Qed.

(** X11.  The loop of lines 60-63 appends to [out], for each element of
    [processed] in order, the members of its batch in group order, and
    when it is over every member of a processed batch has the result of
    that batch among its call results. *)
Theorem processed_loop_inserts_batch_result :
  ∀ (groups : gmap string (list nat)) (processed : list (string * variant))
    (out : list (list nat)) (h : store),
    (fold_left (Ensemble.processed_step groups) processed (out, h)).1
    = out ++ Props.processed_refs groups processed
    ∧ ∀ b c xs r, (b, c) ∈ processed → groups !! b = Some xs → r ∈ xs →
        c ∈ variants ((fold_left (Ensemble.processed_step groups) processed (out, h)).2 r).
Proof.
  intros groups processed. unfold Props.processed_refs.
  induction processed as [|[b0 c0] ps IH]; intros out h.
  - cbn. split; [by rewrite app_nil_r|]. intros b c xs r Hin. by apply elem_of_nil in Hin.
  - cbn [fold_left map concat]. unfold Ensemble.processed_step at 2 4.
    destruct (fold_left (Ensemble.insert_step c0) (default [] (groups !! b0)) (out, h))
      as [out1 h1] eqn:Hf.
    destruct (IH out1 h1) as [Hout Hmem]. split.
    + rewrite Hout. pose proof (insert_steps_out c0 (default [] (groups !! b0)) (out, h)) as Ho.
      rewrite Hf in Ho. cbn in Ho. rewrite Ho. by rewrite <- app_assoc.
    + intros b c xs r Hin Hb Hr. apply elem_of_cons in Hin as [[= -> ->]|Hin].
      * destruct (processed_steps_grow groups ps (out1, h1) r) as [cs ->]. cbn.
        apply elem_of_app. right.
        pose proof (insert_steps_member c0 (default [] (groups !! b0)) (out, h) r) as Hm.
        rewrite Hf in Hm. rewrite Hb in Hm. cbn in Hm. by apply Hm.
      * by eapply Hmem.
Qed.

Lemma processed_loop_inserts_batch_result_witness :
  Example.call_of "ensemble" "e.vcf"
  ∈ variants ((fold_left (Ensemble.processed_step {[ "fam1" := [0%nat; 1%nat] ]})
                 [("fam1", Example.call_of "ensemble" "e.vcf")] ([], Example.h0)).2 1%nat).
Proof.
  apply (proj2 (processed_loop_inserts_batch_result {[ "fam1" := [0%nat; 1%nat] ]}
                  [("fam1", Example.call_of "ensemble" "e.vcf")] [] Example.h0)
           "fam1" _ [0%nat; 1%nat]).
  - by left.
  - by vm_compute.
  - right. by left.
Defined.

Lemma parallel_only_results_added (h h' : store) (samples : list (list nat))
    run_parallel (w w' : world) out :
  Ensemble.combine_calls_parallel h samples run_parallel w = (Ok (out, h'), w') →
  Spec.only_results_added h h'.
Proof.
  intros H. unfold Ensemble.combine_calls_parallel, lift in H.
  unfold mbind at 1, M_bind at 1 in H.
  destruct (Ensemble._group_by_batches h samples _) as [[groups extras]|] eqn:Hg;
    [|done].
  unfold Ensemble._group_by_batches in Hg.
  destruct (Ensemble.mapM_res Ensemble.first samples) as [datas|] eqn:Hd; [|done].
  cbn in Hg.
  assert (∀ k xs, groups !! k = Some xs →
            Forall (λ r, Ensemble._has_ensemble (h r) = true) xs) as Hq.
  { intros k xs Hk. apply Forall_forall. intros r Hr.
    by destruct (groups_qualify h _ _ _ _ _ _ _ Hg Hk Hr). }
  unfold mbind at 1, M_bind at 1 in H.
  destruct (bool_decide (groups ≠ ∅)).
  - unfold mbind at 1, M_bind at 1 in H. unfold lift in H.
    destruct (Ensemble.batch_args h groups) as [args|]; [|done].
    unfold mbind at 1, M_bind at 1 in H.
    destruct (run_parallel "combine_calls" args w) as [[processed|] w1]; [|done].
    pose proof (processed_steps_inv h groups processed ([], h) Hq
                  (only_results_added_refl h) (Forall_nil_2 _)) as [Hh _].
    destruct (fold_left _ processed ([], h)) as [out1 h1].
    unfold mret, M_ret in H. by injection H as <- <- <-.
  - injection H as <- <- <-. apply only_results_added_refl.
Qed.

(** X10.  [combine_calls_parallel] changes of no sample whether it
    qualifies: a sample that qualified before the call qualifies after
    it, with the results put in front of its call results, and a sample
    that did not is as it was. *)
Theorem parallel_step_keeps_qualification :
  ∀ (h h' : store) (samples : list (list nat)) run_parallel (w w' : world) out,
    Ensemble.combine_calls_parallel h samples run_parallel w = (Ok (out, h'), w') →
    ∀ r, Ensemble._has_ensemble (h' r) = Ensemble._has_ensemble (h r).
Proof.
  intros h h' samples run_parallel w w' out H r.
  destruct (parallel_only_results_added h h' samples run_parallel w w' out H r)
    as [[cs Hcs] Hsame].
  destruct (Ensemble._has_ensemble (h r)) eqn:Hq.
  - rewrite Hcs. by apply with_results_qualifies.
  - by rewrite Hsame.
Qed.

Lemma parallel_step_keeps_qualification_witness :
  Ensemble._has_ensemble (Example.h0_after 0%nat) = Ensemble._has_ensemble (Example.h0 0%nat).
Proof.
  apply (parallel_step_keeps_qualification Example.h0 Example.h0_after
           [[0%nat]; [1%nat]; [2%nat]] (Ensemble.run_sequential Example.E0)
           Example.w_empty Example.run0.2 [[2%nat]; [0%nat]; [1%nat]]).
  by vm_compute.
Defined.

(** ** No sample is lost by the parallel step *)

Lemma concat_perm {A : Type} (l l' : list (list A)) :
  l ≡ₚ l' → concat l ≡ₚ concat l'.
Proof.
  induction 1 as [|x l l' _ IH|x y l|l l' l'' _ IH1 _ IH2]; cbn.
  - done.
  - by apply Permutation_app_head.
  - rewrite !app_assoc. apply Permutation_app_tail, Permutation_app_comm.
  - by etrans.
Qed.

Lemma grouped_insert_fresh {A : Type} (g : gmap string (list A)) k xs :
  g !! k = None → Props.grouped (<[k := xs]> g) ≡ₚ xs ++ Props.grouped g.
Proof.
  intros Hk. unfold Props.grouped.
  etrans; [apply concat_perm, Permutation_map, map_to_list_insert; done|]. done.
Qed.

Lemma grouped_delete {A : Type} (g : gmap string (list A)) k xs :
  g !! k = Some xs → Props.grouped g ≡ₚ xs ++ Props.grouped (delete k g).
Proof.
  intros Hk. unfold Props.grouped.
  etrans; [apply concat_perm, Permutation_map; symmetry;
           by apply (map_to_list_delete g k xs)|]. done.
Qed.

Lemma filter_split {A : Type} (p : A → bool) (l : list A) :
  List.filter p l ++ List.filter (λ d, negb (p d)) l ≡ₚ l.
Proof.
  induction l as [|x l IH]; [done|]. cbn. destruct (p x); cbn.
  - by constructor.
  - etrans; [symmetry; apply Permutation_middle|]. by constructor.
Qed.

Section GroupingPerm.

Import Ensemble.

Context {A : Type} (view : A → sample) (check : A → bool).

Lemma group_step_grouped g e d g' e' :
  group_step view check (g, e) d = Ok (g', e') →
  Props.grouped g' ≡ₚ Props.grouped g ++ (if check d then [d] else []).
Proof.
  unfold group_step. destruct (check d).
  - destruct (Py.truthy (batch_tag (view d))) eqn:Ht.
    + destruct (batch_tag (view d)) as [b|]; [|done]. intros [= <- <-].
      destruct (g !! b) as [xs|] eqn:Hb; cbn.
      * rewrite <- insert_delete_eq.
        etrans; [apply grouped_insert_fresh, lookup_delete_eq|].
        rewrite (grouped_delete g b xs Hb).
        rewrite <- !app_assoc. apply Permutation_app_head, Permutation_app_comm.
      * etrans; [by apply grouped_insert_fresh|]. apply Permutation_app_comm.
    + destruct (name_last (view d)) as [n|]; [|done]. cbn.
      destruct (bool_decide (is_Some (g !! n))) eqn:Hn; [done|]. intros [= <- <-].
      apply bool_decide_eq_false in Hn.
      assert (g !! n = None) as Hnone.
      { destruct (g !! n) eqn:Hg; [|done]. exfalso. apply Hn. by eexists. }
      etrans; [by apply grouped_insert_fresh|]. apply Permutation_app_comm.
  - intros [= <- <-]. by rewrite app_nil_r.
Qed.

Lemma group_loop_grouped l : ∀ g e g' e',
  group_loop view check (g, e) l = Ok (g', e') →
  Props.grouped g' ≡ₚ Props.grouped g ++ List.filter check l.
Proof.
  induction l as [|d l IH]; intros g e g' e' H.
  - injection H as <- <-. by rewrite app_nil_r.
  - cbn [group_loop] in H.
    destruct (group_step view check (g, e) d) as [[g1 e1]|] eqn:Hs; [|done].
    cbn in H. rewrite (IH _ _ _ _ H), (group_step_grouped _ _ _ _ _ Hs).
    rewrite <- app_assoc. cbn. by destruct (check d).
Qed.

End GroupingPerm.

Lemma batch_args_keys (h : store) (l : list (string * list nat)) : ∀ args,
  Ensemble.mapM_res (λ '(b, xs), x0 ← Ensemble.first xs; mret (b, map h xs, h x0)) l
  = Ok args →
  map (λ a, a.1.1) args = map fst l.
Proof.
  induction l as [|[b xs] l IH]; intros args H.
  - by injection H as <-.
  - cbn in H. destruct xs as [|x0 xs]; [done|]. cbn in H.
    destruct (Ensemble.mapM_res _ l) as [ys|]; [|done]. cbn in H.
    injection H as <-. cbn. by rewrite (IH ys).
Qed.

Lemma processed_refs_grouped (groups : gmap string (list nat)) processed :
  map fst processed ≡ₚ map fst (map_to_list groups) →
  Props.processed_refs groups processed ≡ₚ map (λ r, [r]) (Props.grouped groups).
Proof.
  intros Hp. unfold Props.processed_refs, Props.grouped.
  rewrite <- (map_map fst (λ k, map (λ r, [r]) (default [] (groups !! k)))).
  etrans; [apply concat_perm, Permutation_map, Hp|].
  rewrite map_map, concat_map, map_map.
  assert (map (λ x, map (λ r : nat, [r]) (default [] (groups !! x.1))) (map_to_list groups)
          = map (λ x, map (λ r, [r]) x.2) (map_to_list groups)) as ->; [|done].
  apply map_ext_in. intros [k xs] Hin. apply list_elem_of_In, elem_of_map_to_list in Hin.
  cbn. by rewrite Hin.
Qed.

(** X12.  With a [run_parallel] that answers once for each batch,
    [combine_calls_parallel] returns every input sample exactly once: the
    list it returns is a rearrangement of the input samples, each wrapped
    on its own. *)
Theorem parallel_step_returns_every_sample :
  ∀ (h h' : store) (samples : list (list nat)) run_parallel (w w' : world) out,
    Props.reports_each_batch_once run_parallel →
    Ensemble.combine_calls_parallel h samples run_parallel w = (Ok (out, h'), w') →
    ∃ datas,
      Forall2 (λ x d, head x = Some d) samples datas
      ∧ out ≡ₚ map (λ d, [d]) datas.
Proof.
  intros h h' samples run_parallel w w' out Honce H.
  unfold Ensemble.combine_calls_parallel, lift in H.
  unfold mbind at 1, M_bind at 1 in H.
  destruct (Ensemble._group_by_batches h samples _) as [[groups extras]|] eqn:Hg;
    [|done].
  unfold Ensemble._group_by_batches in Hg.
  destruct (Ensemble.mapM_res Ensemble.first samples) as [datas|] eqn:Hd; [|done].
  cbn in Hg. exists datas. split; [by apply mapM_first_heads|].
  pose proof (group_loop_inv h _ datas _ _ _ _ Hg) as (He & _ & _). cbn in He.
  pose proof (group_loop_grouped h _ datas _ _ _ _ Hg) as Hperm.
  change (Props.grouped ∅) with (@nil nat) in Hperm. cbn [app] in Hperm.
  assert (∃ out_q, out = out_q ++ extras
                   ∧ out_q ≡ₚ map (λ r, [r]) (Props.grouped groups)) as (out_q & -> & Hq).
  { unfold mbind at 1, M_bind at 1 in H.
    destruct (bool_decide (groups ≠ ∅)) eqn:Hne.
    - unfold mbind at 1, M_bind at 1 in H. unfold lift in H.
      destruct (Ensemble.batch_args h groups) as [args|] eqn:Ha; [|done].
      unfold mbind at 1, M_bind at 1 in H.
      destruct (run_parallel "combine_calls" args w) as [[processed|] w1] eqn:Hr; [|done].
      pose proof (proj1 (processed_loop_refs groups processed [] h)) as Ho.
      destruct (fold_left _ processed ([], h)) as [out1 h1].
      unfold mret, M_ret in H. injection H as <- <- <-. exists out1.
      split; [done|]. cbn in Ho. rewrite Ho. apply processed_refs_grouped.
      rewrite (Honce _ _ _ _ Hr). by rewrite (batch_args_keys h _ _ Ha).
    - injection H as <- <- <-. exists []. split; [done|].
      apply bool_decide_eq_false in Hne.
      assert (groups = ∅) as -> by (by destruct (decide (groups = ∅))).
      done. }
  rewrite He. unfold Spec.residual. rewrite Hq, Hperm, <- map_app.
  apply Permutation_map, filter_split.
Qed.

Lemma parallel_step_returns_every_sample_witness :
  ∃ datas,
    Forall2 (λ x d, head x = Some d) [[0%nat]; [1%nat]; [2%nat]] datas
    ∧ Cases.echo_out ≡ₚ map (λ d, [d]) datas.
Proof.
  apply (parallel_step_returns_every_sample Example.h0 Cases.echo_store
           [[0%nat]; [1%nat]; [2%nat]] (Cases.echo (Example.call_of "ensemble" "e.vcf"))
           Example.w_empty Example.w_empty Cases.echo_out).
  - intros args w processed w1 [= <- <-]. rewrite map_map. done.
  - by vm_compute.
Defined.

(** ** Which collaborators a batch reaches *)

Section Emits.

Import Ensemble.

Variable E : externals.
Variable P : ext → Prop.

Lemma emits_silent {A : Type} (m : M A) w : Spec.silent m → Props.emits P m w.
Proof. intros H. exists []. by rewrite H, app_nil_r. Qed.

Lemma emits_call e w : P e → Props.emits P (FS.call E e) w.
Proof.
  intros He. exists [e]. split; [|by constructor].
  destruct (FS.call E e w) as [r w'] eqn:Hc. by apply call_called in Hc.
Qed.

Lemma emits_bind {A B : Type} (m : M A) (f : A → M B) w :
  Props.emits P m w →
  (∀ a w1, m w = (Ok a, w1) → Props.emits P (f a) w1) →
  Props.emits P (m ≫= f) w.
Proof.
  intros (evs & Hm & Hall) Hf. unfold Props.emits, mbind, M_bind.
  destruct (m w) as [[a|e] w1] eqn:Hw; cbn in Hm.
  - destruct (Hf a w1 eq_refl) as (evs' & Hf' & Hall'). exists (evs ++ evs').
    rewrite Hf', Hm, app_assoc. split; [done|]. by apply Forall_app.
  - by exists evs.
Qed.

Lemma emits_foldM {A S : Type} (f : S → A → M S) (l : list A) : ∀ s w,
  (∀ s x w, Props.emits P (f s x) w) → Props.emits P (foldM f s l) w.
Proof.
  induction l as [|x l IH]; intros s w Hf; cbn.
  - by apply emits_silent.
  - apply emits_bind; [apply Hf|]. intros s1 w1 _. by apply IH.
Qed.

Lemma silent_vcf_has_variants f : Spec.silent (vcf_has_variants f).
Proof. by destruct f. Qed.

Lemma silent_any_has_variants l : Spec.silent (any_has_variants l).
Proof.
  induction l as [|f l IH]; [done|]. cbn. apply silent_bind.
  - apply silent_vcf_has_variants.
  - by intros [].
Qed.

End Emits.

Section Strategy.

Import Ensemble.

Variable E : externals.
Variable data : sample.

Local Abbreviation allowed := (Props.strategy_event (Props.strategy_of data)).

Lemma emits_organize_vrn d st v w : Props.emits allowed (organize_vrn E d st v) w.
Proof.
  unfold organize_vrn. apply emits_bind; [|intros [f t] w1 _; by apply emits_silent].
  destruct (is_tumor d); [|by apply emits_silent].
  destruct (vrn_file v) as [f|]; [|by apply emits_silent].
  apply emits_bind; [by apply emits_silent|]. intros t w1 _.
  apply emits_bind; [by apply emits_silent|]. intros sn w2 _.
  apply emits_bind; [|intros; by apply emits_silent].
  unfold select_sample. apply emits_bind; [by apply emits_call|].
  intros; by apply emits_silent.
Qed.

Lemma emits_organize_variants samples batch_id w :
  Props.emits allowed (_organize_variants E samples batch_id) w.
Proof.
  unfold _organize_variants. apply emits_bind; [by apply emits_silent|].
  intros s0 w1 _. apply emits_bind.
  - apply emits_foldM. intros st d w2. unfold organize_sample.
    apply emits_foldM. intros; apply emits_organize_vrn.
  - intros st w2 _. apply emits_bind; [|intros; by apply emits_silent].
    apply emits_foldM. intros acc c w3. unfold representative.
    destruct (default [] (calls st !! c)) as [|f [|g fs]]; try by apply emits_silent.
    all: apply emits_bind; [|intros; by apply emits_silent].
    all: unfold get_multisample_vcf; apply emits_bind; [by apply emits_call|].
    all: intros; by apply emits_silent.
Qed.

Lemma emits_run_ensemble batch_id vrn_files config_file base_dir ref_file w :
  Props.strategy_of data = Some false →
  Props.emits allowed (_run_ensemble E batch_id vrn_files config_file base_dir ref_file) w.
Proof.
  intros Hs. eexists. split; [apply run_ensemble_called|].
  destruct (FS.file_exists w _); [constructor|]. by repeat constructor.
Qed.

Lemma emits_run_ensemble_w_caller batch_id vrn_files bams base_dir w :
  Props.strategy_of data = Some true →
  Props.emits allowed (_run_ensemble_w_caller E batch_id vrn_files bams base_dir data) w.
Proof.
  intros Hs. unfold _run_ensemble_w_caller.
  apply emits_bind; [by apply emits_silent|]. intros have w1 _.
  apply emits_bind.
  - destruct have; [by apply emits_silent|].
    apply emits_bind; [by apply emits_silent|]. intros ens w2 _.
    apply emits_bind; [by apply emits_silent|]. intros c w3 _.
    by apply emits_call.
  - intros _ w2 _. apply emits_bind; [by apply emits_call|].
    intros; by apply emits_silent.
Qed.

End Strategy.

(** X13.  A batch is taken through one strategy only.  Whatever
    [combine_calls] does and however it ends, it asks for the ensemble
    tool of [_run_ensemble] only when the configuration has no "caller"
    entry, and for the recall tool and the effects annotation only when it
    has one; without an "ensemble" configuration it reaches none of the
    three. *)
Theorem combine_calls_uses_one_strategy :
  ∀ (E : externals) (batch_id : string) (samples : list sample) (data : sample),
    Props.only (Props.strategy_event (Props.strategy_of data))
               (Ensemble.combine_calls E batch_id samples data).
Proof.
  intros E batch_id samples data w. unfold Ensemble.combine_calls.
  apply emits_bind; [by apply emits_silent|]. intros _ w1 _.
  apply emits_bind; [by apply emits_silent|]. intros base_dir w2 _.
  apply emits_bind; [apply emits_organize_variants|].
  intros [[caller_names vrn_files] bams] w3 _.
  apply emits_bind; [apply emits_silent, silent_any_has_variants|].
  intros [] w4 _.
  - apply emits_bind; [by apply emits_silent|]. intros ens w5 Hens.
    assert (Props.strategy_of data = Some (bool_decide (is_Some (ens_caller ens)))) as Hs.
    { unfold lift, Ensemble.ensemble_of in Hens. unfold Props.strategy_of.
      destruct (algorithm_ensemble data) as [c|]; [|done]. by injection Hens as -> _. }
    apply emits_bind.
    + destruct (bool_decide (is_Some (ens_caller ens))).
      * by apply emits_run_ensemble_w_caller.
      * apply emits_bind; [|intros; by apply emits_run_ensemble].
        apply emits_silent. unfold Ensemble._write_config_file.
        apply silent_bind; [done|]. intros d. apply silent_bind; [done|]. intros c.
        apply silent_bind; [done|]. done.
    + intros callinfo w6 _. apply emits_bind; [by apply emits_call|].
      intros; by apply emits_silent.
  - apply emits_bind; [by apply emits_silent|]. intros; by apply emits_silent.
Qed.

(** ** The two ways of running the ensemble *)

Section Runs.

Import Ensemble.

Variable E : externals.

Lemma glob_star_present w dir suffix p :
  p ∈ FS.glob_star w dir suffix → is_Some (files w !! p).
Proof.
  unfold FS.glob_star. intros Hin. apply list_elem_of_filter in Hin as [_ Hin].
  apply list_elem_of_In, in_map_iff in Hin as ([q f] & <- & Hin).
  apply list_elem_of_In, elem_of_map_to_list in Hin. by eexists.
Qed.

Lemma symlink_plus_keeps orig new w r w' q :
  FS.symlink_plus orig new w = (r, w') →
  is_Some (files w !! q) → is_Some (files w' !! q).
Proof.
  unfold FS.symlink_plus. destruct (files w !! orig) as [f|]; intros [= <- <-]; [|done].
  cbn. intros Hq. apply lookup_insert_is_Some. destruct (decide (new = q)); eauto.
Qed.

Lemma ensure_bed_keeps out_bed prep w r w' q :
  ensure_bed out_bed prep w = (r, w') →
  is_Some (files w !! q) → is_Some (files w' !! q).
Proof.
  unfold ensure_bed. munfold. destruct (FS.file_exists w out_bed).
  - by intros [= <- <-].
  - destruct (FS.glob_star w prep "-multicombine.bed") as [|b bs].
    + by intros [= <- <-].
    + apply symlink_plus_keeps.
Qed.

Lemma ensure_vcf_present vrn_files out ref_file config_file base_dir prep w w' :
  ensure_vcf E vrn_files out ref_file config_file base_dir prep w = (Ok tt, w') →
  is_Some (files w' !! out).
Proof.
  unfold ensure_vcf, _bcbio_variation_ensemble, FS.safe_makedir. munfold.
  destruct (FS.file_exists w out) eqn:Hx.
  - intros [= <-]. unfold FS.file_exists in Hx. by destruct (files w !! out).
  - destruct (FS.call E _ w) as [[[]|e] w1]; [|done].
    destruct (FS.file_exists w1 out) eqn:Hx1.
    + intros [= <-]. unfold FS.file_exists in Hx1. by destruct (files w1 !! out).
    + destruct (FS.glob_star w1 prep "-cfilter.vcf") as [|b bs] eqn:Hg; [done|]. cbn.
      assert (is_Some (files w1 !! b)) as [f Hf].
      { apply (glob_star_present w1 prep "-cfilter.vcf"). rewrite Hg. by left. }
      unfold FS.symlink_plus. rewrite Hf. intros [= <-]. cbn.
      rewrite lookup_insert_eq. by eexists.
Qed.

End Runs.

(** X14.  When [_run_ensemble] returns, what it returns is there: the
    result is labelled "ensemble", its [vrn_file] is the consensus path
    and a file is at that path, and its [bed_file] is the callable-regions
    path exactly when a file is at that path and absent otherwise. *)
Theorem run_ensemble_result_is_present :
  ∀ (E : externals) batch_id vrn_files config_file base_dir ref_file (w w' : world) c,
    let out_vcf_file := Py.path_join base_dir (batch_id +:+ "-ensemble.vcf") in
    let out_bed_file := Py.path_join base_dir (batch_id +:+ "-callregions.bed") in
    Ensemble._run_ensemble E batch_id vrn_files config_file base_dir ref_file w
    = (Ok c, w') →
    variantcaller c = "ensemble"
    ∧ vrn_file c = Some out_vcf_file
    ∧ is_Some (files w' !! out_vcf_file)
    ∧ ((bed_file c = Some out_bed_file ∧ is_Some (files w' !! out_bed_file))
       ∨ (bed_file c = None ∧ files w' !! out_bed_file = None)).
Proof.
  intros E batch_id vrn_files config_file base_dir ref_file w w' c out_vcf_file
    out_bed_file H.
  unfold Ensemble._run_ensemble in H. fold out_vcf_file out_bed_file in H.
  unfold mbind at 1, M_bind at 1 in H.
  destruct (Ensemble.ensure_vcf E _ _ _ _ _ _ w) as [[[]|e] w1] eqn:Hv; [|done].
  unfold mbind at 1, M_bind at 1 in H.
  destruct (Ensemble.ensure_bed _ _ w1) as [[[]|e] w2] eqn:Hb; [|done].
  munfold. injection H as <- <-. cbn.
  split; [done|]. split; [done|]. split.
  - eapply ensure_bed_keeps; [exact Hb|]. by eapply ensure_vcf_present.
  - unfold FS.path_exists. destruct (bool_decide (is_Some (files w2 !! out_bed_file))) eqn:Hd.
    + left. split; [done|]. by apply bool_decide_eq_true in Hd.
    + right. split; [done|]. apply bool_decide_eq_false in Hd.
      destruct (files w2 !! out_bed_file); [|done]. exfalso. apply Hd. by eexists.
Qed.

Lemma run_ensemble_result_is_present_witness :
  variantcaller (Ensemble.ensemble_result (Some "work/ensemble/b1/b1-ensemble.vcf")
                   (Some "work/ensemble/b1/b1-callregions.bed")) = "ensemble"
  ∧ vrn_file (Ensemble.ensemble_result (Some "work/ensemble/b1/b1-ensemble.vcf")
                (Some "work/ensemble/b1/b1-callregions.bed"))
    = Some (Py.path_join "work/ensemble/b1" ("b1" +:+ "-ensemble.vcf"))
  ∧ is_Some (files (Ensemble._run_ensemble Example.E0 "b1" [] "cfg.yaml" "work/ensemble/b1"
                      "ref.fa" Cases.w_prep).2
             !! Py.path_join "work/ensemble/b1" ("b1" +:+ "-ensemble.vcf"))
  ∧ ((bed_file (Ensemble.ensemble_result (Some "work/ensemble/b1/b1-ensemble.vcf")
                  (Some "work/ensemble/b1/b1-callregions.bed"))
      = Some (Py.path_join "work/ensemble/b1" ("b1" +:+ "-callregions.bed"))
      ∧ is_Some (files (Ensemble._run_ensemble Example.E0 "b1" [] "cfg.yaml"
                          "work/ensemble/b1" "ref.fa" Cases.w_prep).2
                 !! Py.path_join "work/ensemble/b1" ("b1" +:+ "-callregions.bed")))
     ∨ (bed_file (Ensemble.ensemble_result (Some "work/ensemble/b1/b1-ensemble.vcf")
                    (Some "work/ensemble/b1/b1-callregions.bed")) = None
        ∧ files (Ensemble._run_ensemble Example.E0 "b1" [] "cfg.yaml"
                   "work/ensemble/b1" "ref.fa" Cases.w_prep).2
          !! Py.path_join "work/ensemble/b1" ("b1" +:+ "-callregions.bed") = None)).
Proof.
  apply (run_ensemble_result_is_present Example.E0 "b1" [] "cfg.yaml" "work/ensemble/b1"
           "ref.fa" Cases.w_prep).
  by vm_compute.
Defined.





(** X16.  When [_run_ensemble_w_caller] returns, it asked for the recall
    tool exactly when the consensus output was not there, with the caller
    of the configuration, and then for the effects annotation in either
    case: the annotation is not skipped for an output that exists.  The
    result names the annotated file and never a callable-regions file. *)
Theorem recall_runs_only_without_output :
  ∀ (E : externals) batch_id vrn_files bams base_dir edata (w w' : world) c,
    let out_vcf_file := Py.path_join base_dir (batch_id +:+ "-ensemble.vcf") in
    Ensemble._run_ensemble_w_caller E batch_id vrn_files bams base_dir edata w
    = (Ok c, w') →
    c = Variant "ensemble" (snpeff_vcf_name E out_vcf_file) None None None
    ∧ ∃ recall,
        called w' = called w ++ recall ++ [SnpeffEffects out_vcf_file]
        ∧ if FS.file_exists w out_vcf_file then recall = []
          else ∃ ens caller,
                 algorithm_ensemble edata = Some ens
                 ∧ ens_caller ens = Some caller
                 ∧ recall = [RecallEnsemble caller out_vcf_file (sam_ref edata)
                               vrn_files bams].
Proof.
  intros E batch_id vrn_files bams base_dir edata w w' c out_vcf_file H.
  unfold Ensemble._run_ensemble_w_caller in H. fold out_vcf_file in H.
  apply bind_ok in H as (have & w1 & Hg & H). unfold gets in Hg. injection Hg as <- <-.
  apply bind_ok in H as ([] & w2 & Hrec & H).
  apply bind_ok in H as ([] & w3 & Hs & H).
  unfold mret, M_ret in H. injection H as <- <-. split; [done|].
  apply call_called in Hs. destruct (FS.file_exists w out_vcf_file).
  - injection Hrec as <-. by exists [].
  - apply bind_ok in Hrec as (ens & w4 & He & Hrec).
    unfold lift, Ensemble.ensemble_of in He.
    destruct (algorithm_ensemble edata) as [ens'|]; [|done]. injection He as -> <-.
    apply bind_ok in Hrec as (caller & w5 & Hc & Hrec). unfold lift in Hc.
    destruct (ens_caller ens) as [caller'|] eqn:Hcaller; [|done]. injection Hc as -> <-.
    apply call_called in Hrec.
    exists [RecallEnsemble caller out_vcf_file (sam_ref edata) vrn_files bams].
    rewrite Hs, Hrec, <- app_assoc. split; [done|]. by exists ens, caller.
Qed.

Lemma recall_runs_only_without_output_witness :
  Variant "ensemble" (Some "work/ensemble/C/C-ensemble.vcf-effects.vcf") None None None
  = Variant "ensemble"
      (snpeff_vcf_name Example.E0 (Py.path_join "work/ensemble/C" ("C" +:+ "-ensemble.vcf")))
      None None None
  ∧ ∃ recall,
      [RecallEnsemble "freebayes" "work/ensemble/C/C-ensemble.vcf" "ref.fa"
         [Some "C-gatk.vcf"] ["C.bam"];
       SnpeffEffects "work/ensemble/C/C-ensemble.vcf"]
      = called Example.w_empty ++ recall
        ++ [SnpeffEffects (Py.path_join "work/ensemble/C" ("C" +:+ "-ensemble.vcf"))]
      ∧ if FS.file_exists Example.w_empty
             (Py.path_join "work/ensemble/C" ("C" +:+ "-ensemble.vcf"))
        then recall = []
        else ∃ ens caller,
               algorithm_ensemble (Cases.with_caller Example.C) = Some ens
               ∧ ens_caller ens = Some caller
               ∧ recall = [RecallEnsemble caller
                             (Py.path_join "work/ensemble/C" ("C" +:+ "-ensemble.vcf"))
                             (sam_ref (Cases.with_caller Example.C))
                             [Some "C-gatk.vcf"] ["C.bam"]].
Proof.
  apply (recall_runs_only_without_output Example.E0 "C" [Some "C-gatk.vcf"] ["C.bam"]
           "work/ensemble/C" (Cases.with_caller Example.C) Example.w_empty
           (World ∅ 2 [RecallEnsemble "freebayes" "work/ensemble/C/C-ensemble.vcf" "ref.fa"
                         [Some "C-gatk.vcf"] ["C.bam"];
                       SnpeffEffects "work/ensemble/C/C-ensemble.vcf"])).
  by vm_compute.
Defined.

Section Shape.

Import Ensemble.

Variable E : externals.

Lemma run_ensemble_shape batch_id vrn_files config_file base_dir ref_file w c w' :
  _run_ensemble E batch_id vrn_files config_file base_dir ref_file w = (Ok c, w') →
  variantcaller c = "ensemble" ∧ vrn_file_batch c = None.
Proof.
  intros H. unfold _run_ensemble in H.
  apply bind_ok in H as ([] & w1 & _ & H). apply bind_ok in H as ([] & w2 & _ & H).
  apply bind_ok in H as (b & w3 & _ & H).
  unfold mret, M_ret in H. by injection H as <- <-.
Qed.

Lemma run_ensemble_w_caller_shape batch_id vrn_files bams base_dir edata w c w' :
  _run_ensemble_w_caller E batch_id vrn_files bams base_dir edata w = (Ok c, w') →
  variantcaller c = "ensemble" ∧ vrn_file_batch c = None ∧ bed_file c = None.
Proof.
  intros H. unfold _run_ensemble_w_caller in H.
  apply bind_ok in H as (have & w1 & _ & H). apply bind_ok in H as ([] & w2 & _ & H).
  apply bind_ok in H as ([] & w3 & _ & H).
  unfold mret, M_ret in H. by injection H as <- <-.
Qed.

End Shape.

(** X17.  When [combine_calls] returns, the list it returns has one
    element: the batch identifier it was given, paired with a result that
    is labelled "ensemble" and has no per-batch file.  The batch was not
    empty, and the result names a callable-regions file only when the
    configuration has no "caller" entry. *)
Theorem combine_calls_returns_one_result :
  ∀ (E : externals) (batch_id : string) (samples : list sample) (data : sample)
    (w w' : world) r,
    Ensemble.combine_calls E batch_id samples data w = (Ok r, w') →
    samples ≠ []
    ∧ ∃ c, r = [(batch_id, c)]
           ∧ variantcaller c = "ensemble"
           ∧ vrn_file_batch c = None
           ∧ (Props.strategy_of data = Some true → bed_file c = None).
Proof.
  intros E batch_id samples data w w' r H. unfold Ensemble.combine_calls in H.
  apply bind_ok in H as (s0 & w1 & Hs & H). split.
  { unfold lift in Hs. by destruct samples. }
  apply bind_ok in H as (base_dir & w2 & _ & H).
  apply bind_ok in H as ([[caller_names vrn_files] bams] & w3 & _ & H).
  apply bind_ok in H as ([] & w4 & _ & H).
  - apply bind_ok in H as (ens & w5 & He & H).
    unfold lift, Ensemble.ensemble_of in He. unfold Props.strategy_of.
    destruct (algorithm_ensemble data) as [ens'|]; [|done]. injection He as -> <-.
    apply bind_ok in H as (c & w6 & Hc & H).
    apply bind_ok in H as ([] & w7 & _ & H).
    unfold mret, M_ret in H. injection H as <- <-. eexists. split; [done|]. cbn.
    destruct (bool_decide (is_Some (ens_caller ens))).
    + by apply run_ensemble_w_caller_shape in Hc as (Hv & Hb & Hbed).
    + apply bind_ok in Hc as (cf & w8 & _ & Hc).
      by apply run_ensemble_shape in Hc as (Hv & Hb).
  - apply bind_ok in H as ([] & w5 & _ & H).
    unfold mret, M_ret in H. injection H as <- <-. eexists. split; [done|]. by cbn.
Qed.

Lemma combine_calls_returns_one_result_witness :
  [Example.A; Example.B] ≠ []
  ∧ ∃ c, [("fam1", Variant "ensemble" (Some "work/ensemble/fam1/fam1-ensemble.vcf")
                     None None None)] = [("fam1", c)]
         ∧ variantcaller c = "ensemble"
         ∧ vrn_file_batch c = None
         ∧ (Props.strategy_of Example.A = Some true → bed_file c = None).
Proof.
  apply (combine_calls_returns_one_result Example.E0 "fam1" [Example.A; Example.B]
           Example.A Example.w_headers
           (Ensemble.combine_calls Example.E0 "fam1" [Example.A; Example.B] Example.A
              Example.w_headers).2).
  by vm_compute.
Defined.

(** ** More on the files a batch contributes *)

Section Bams.

Import Ensemble.

Variable E : externals.

Lemma organize_sample_bams st d w st' w' :
  organize_sample E st d w = (Ok st', w') →
  bam_files st' = match work_bam d with
                  | Some b => {[ b ]} ∪ bam_files st
                  | None => bam_files st
                  end.
Proof.
  unfold organize_sample. intros H.
  by apply organize_vrns_ok in H as (-> & _).
Qed.

Lemma organize_samples_bams samples : ∀ st w st' w',
  foldM (organize_sample E) st samples w = (Ok st', w') →
  ∀ x, x ∈ bam_files st' ↔ x ∈ bam_files st ∨ ∃ d, d ∈ samples ∧ work_bam d = Some x.
Proof.
  induction samples as [|d l IH]; intros st w st' w' H x.
  - injection H as <- <-. split; [by left|]. intros [?|(d & Hd & _)]; [done|].
    by apply elem_of_nil in Hd.
  - cbn [foldM] in H. apply bind_ok in H as (s1 & w1 & Hs & H).
    apply organize_sample_bams in Hs. rewrite (IH _ _ _ _ H x), Hs. split.
    + intros [Hx|(d' & Hd' & Hw)].
      * destruct (work_bam d) as [b|] eqn:Hb; [|by left].
        apply elem_of_union in Hx as [Hx|Hx]; [|by left].
        apply elem_of_singleton in Hx as ->. right. exists d. split; [by left|done].
      * right. exists d'. split; [by right|done].
    + intros [Hx|(d' & Hd' & Hw)].
      * left. destruct (work_bam d); [|done]. apply elem_of_union. by right.
      * apply elem_of_cons in Hd' as [->|Hd'].
        -- left. rewrite Hw. apply elem_of_union. left. by apply elem_of_singleton.
        -- right. by exists d'.
Qed.

Lemma representative_singletons cs batch_id s0 vs : ∀ acc w,
  (∀ v, v ∈ vs → default [] (cs !! variantcaller v) = [vrn_file v]) →
  foldM (representative E cs batch_id s0) acc (map variantcaller vs) w
  = (Ok (acc ++ map vrn_file vs), w).
Proof.
  induction vs as [|v vs IH]; intros acc w Hall; cbn [map foldM].
  - by rewrite app_nil_r.
  - unfold mbind at 1, M_bind at 1.
    assert (representative E cs batch_id s0 acc (variantcaller v) w
            = (Ok (acc ++ [vrn_file v]), w)) as ->.
    { unfold representative. by rewrite (Hall v) by (by left). }
    rewrite IH by (intros v' Hv'; apply Hall; by right).
    by rewrite <- app_assoc.
Qed.

Lemma filter_no_caller (vs : list variant) c :
  (∀ y, y ∈ vs → variantcaller y ≠ c) →
  List.filter (λ x, String.eqb (variantcaller x) c) vs = [].
Proof.
  induction vs as [|y vs IH]; intros Hf; [done|]. cbn.
  destruct (String.eqb_spec (variantcaller y) c) as [Heq|_].
  - exfalso. by apply (Hf y); [left|].
  - apply IH. intros z Hz. apply Hf. by right.
Qed.

Lemma filter_unique_caller (vs : list variant) v :
  NoDup (map variantcaller vs) → v ∈ vs →
  List.filter (λ x, String.eqb (variantcaller x) (variantcaller v)) vs = [v].
Proof.
  induction vs as [|x vs IH]; intros Hnd Hin; [by apply elem_of_nil in Hin|].
  cbn [map] in Hnd. apply NoDup_cons in Hnd as [Hx Hnd]. cbn.
  assert (∀ y, y ∈ vs → variantcaller y ≠ variantcaller x) as Hfresh.
  { intros y Hy Heq. apply Hx. rewrite <- Heq. apply list_elem_of_In, in_map.
    by apply list_elem_of_In. }
  apply elem_of_cons in Hin as [->|Hin].
  - rewrite String.eqb_refl. f_equal. by apply filter_no_caller.
  - destruct (String.eqb_spec (variantcaller x) (variantcaller v)) as [Heq|_].
    + exfalso. by eapply Hfresh.
    + by apply IH.
Qed.

End Bams.

(** X18.  The alignment files [_organize_variants] returns are the
    "work_bam" entries of the samples of the batch, each listed once:
    samples that share an alignment file contribute it once, and samples
    without the entry contribute nothing. *)
Theorem organize_variants_alignment_files :
  ∀ (E : externals) (samples : list sample) (batch_id : string) (w w' : world)
    caller_names vrn_files bams,
    Ensemble._organize_variants E samples batch_id w
    = (Ok (caller_names, vrn_files, bams), w') →
    NoDup bams
    ∧ ∀ x, x ∈ bams ↔ ∃ d, d ∈ samples ∧ work_bam d = Some x.
Proof.
  intros E samples batch_id w w' caller_names vrn_files bams H.
  unfold Ensemble._organize_variants in H.
  apply bind_ok in H as (s0 & w1 & _ & H).
  apply bind_ok in H as (st & w2 & Hst & H).
  apply bind_ok in H as (vf & w3 & _ & H).
  unfold mret, M_ret in H. injection H as _ _ <- _.
  split; [apply NoDup_elements|]. intros x.
  rewrite elem_of_elements, (organize_samples_bams E _ _ _ _ _ Hst x). cbn.
  split; [|by right]. intros [Hx|?]; [|done]. by apply elem_of_empty in Hx.
Qed.

Lemma organize_variants_alignment_files_witness :
  NoDup ["shared.bam"]
  ∧ ∀ x, x ∈ ["shared.bam"]
         ↔ ∃ d, d ∈ [Cases.with_bam "shared.bam" Example.A;
                     Cases.with_bam "shared.bam" Example.B; Example.S1]
                ∧ work_bam d = Some x.
Proof.
  apply (organize_variants_alignment_files Example.E0 _ "fam1" Example.w_headers
           (Ensemble._organize_variants Example.E0
              [Cases.with_bam "shared.bam" Example.A;
               Cases.with_bam "shared.bam" Example.B; Example.S1] "fam1"
              Example.w_headers).2
           ["gatk"; "freebayes"]
           [Some "work/fam1-gatk.vcf"; Some "work/fam1-freebayes.vcf"]).
  by vm_compute.
Defined.

(** X19.  A batch of one sample that is no tumour sample and whose call
    results come from different callers is handed on as it is:
    [_organize_variants] returns its callers and their files in the order
    of its call results, with its alignment file if it has one, asks for
    no merge or selection, and leaves the files alone. *)
Theorem single_sample_batch_is_not_merged :
  ∀ (E : externals) (d : sample) (batch_id : string) (w : world),
    Ensemble.is_tumor d = false →
    NoDup (map variantcaller (variants d)) →
    Ensemble._organize_variants E [d] batch_id w
    = (Ok (map variantcaller (variants d), map vrn_file (variants d),
           match work_bam d with Some b => [b] | None => [] end), w).
Proof.
  intros E d batch_id w Ht Hnd. unfold Ensemble._organize_variants.
  unfold lift at 1. cbn [Ensemble.first]. unfold mbind at 1, M_bind at 1.
  destruct (organize_samples_normal E [d] (Ensemble.OrgState ∅ ∅ None) w)
    as (st & Hst & _); [constructor; [by left|constructor]|].
  unfold mbind at 1, M_bind at 1. rewrite Hst.
  pose proof (organize_samples_ok E _ _ _ _ _ Hst) as (Hcalls & _).
  pose proof Hst as Hb. cbn [Ensemble.foldM] in Hb.
  apply bind_ok in Hb as (s1 & w1 & Hs1 & Hb). unfold mret, M_ret in Hb.
  injection Hb as -> ->. apply organize_sample_bams in Hs1. cbn in Hs1.
  unfold mbind at 1, M_bind at 1.
  rewrite (representative_singletons E (Ensemble.calls st) batch_id d (variants d) [] w).
  - unfold mret, M_ret. cbn [app]. rewrite Hs1. do 3 f_equal.
    destruct (work_bam d) as [b|]; [|apply elements_empty].
    rewrite (right_id_L ∅ (∪)). apply elements_singleton.
  - intros v Hv. destruct (Hcalls (variantcaller v)) as (fs & -> & _ & Hfs).
    cbn [Ensemble.calls]. rewrite lookup_empty. cbn [default app].
    rewrite Hfs by (constructor; [done|constructor]).
    unfold Spec.entries. cbn [map concat]. rewrite app_nil_r.
    by rewrite (filter_unique_caller (variants d) v Hnd Hv).
Qed.

Lemma single_sample_batch_is_not_merged_witness :
  Ensemble._organize_variants Example.E0 [Example.C] "C" Example.w_empty
  = (Ok (map variantcaller (variants Example.C), map vrn_file (variants Example.C),
         match work_bam Example.C with Some b => [b] | None => [] end), Example.w_empty).
Proof.
  apply single_sample_batch_is_not_merged; [by vm_compute|].
  apply NoDup_ListNoDup. cbn. repeat constructor; cbn; intuition congruence.
Defined.

(** X20.  When [combine_calls] returns, the result it reports is either
    the one it had validated or the empty one it wrote itself: in the
    first case the last collaborator it asked is the validation, for
    exactly the variant file and the callable-regions file of the result,
    whose summary the result carries; in the second the result names the
    consensus path, at which a file with header lines only then is. *)
Theorem combine_calls_validates_what_it_reports :
  ∀ (E : externals) (batch_id : string) (samples : list sample) (data : sample)
    (w w' : world) c,
    Ensemble.combine_calls E batch_id samples data w = (Ok [(batch_id, c)], w') →
    let out_vcf_file :=
      Py.path_join (Py.path_join (Py.path_join (dirs_work data) "ensemble") batch_id)
                   (batch_id +:+ "-ensemble.vcf") in
    (∃ pre, called w' = pre ++ [CompareToRm (vrn_file c) (bed_file c)]
            ∧ validate c = validate_summary E (vrn_file c) (bed_file c))
    ∨ (c = Variant "ensemble" (Some out_vcf_file) None None None
       ∧ ∃ t, files w' !! out_vcf_file = Some (File t Ensemble.empty_vcf)).
Proof.
  intros E batch_id samples data w w' c H out_vcf_file.
  unfold Ensemble.combine_calls in H.
  apply bind_ok in H as (s0 & w1 & _ & H).
  apply bind_ok in H as (base_dir & w2 & Hbase & H).
  unfold FS.safe_makedir, mret, M_ret in Hbase. injection Hbase as <- <-.
  apply bind_ok in H as ([[caller_names vrn_files] bams] & w3 & _ & H).
  apply bind_ok in H as ([] & w4 & _ & H).
  - left. apply bind_ok in H as (ens & w5 & _ & H).
    apply bind_ok in H as (c0 & w6 & _ & H).
    apply bind_ok in H as ([] & w7 & Hcall & H).
    unfold mret, M_ret in H. injection H as <- <-. cbn.
    apply call_called in Hcall. by exists (called w6).
  - right. apply bind_ok in H as ([] & w5 & Hw & H).
    unfold mret, M_ret in H. injection H as <- <-. split; [done|].
    unfold Ensemble.write_empty_vcf, FS.write, modify in Hw. injection Hw as <-.
    cbn. exists (clock w4). by rewrite lookup_insert_eq.
Qed.

Lemma combine_calls_validates_what_it_reports_witness :
  (∃ pre,
     called (Ensemble.combine_calls Example.E0 "fam1" [Example.A; Example.B] Example.A
               Example.w_headers).2
     = pre ++ [CompareToRm
                 (vrn_file (Variant "ensemble" (Some "work/ensemble/fam1/fam1-ensemble.vcf")
                              None None None))
                 (bed_file (Variant "ensemble" (Some "work/ensemble/fam1/fam1-ensemble.vcf")
                              None None None))]
     ∧ validate (Variant "ensemble" (Some "work/ensemble/fam1/fam1-ensemble.vcf")
                   None None None)
       = validate_summary Example.E0
           (vrn_file (Variant "ensemble" (Some "work/ensemble/fam1/fam1-ensemble.vcf")
                        None None None))
           (bed_file (Variant "ensemble" (Some "work/ensemble/fam1/fam1-ensemble.vcf")
                        None None None)))
  ∨ (Variant "ensemble" (Some "work/ensemble/fam1/fam1-ensemble.vcf") None None None
     = Variant "ensemble"
         (Some (Py.path_join
                  (Py.path_join (Py.path_join (dirs_work Example.A) "ensemble") "fam1")
                  ("fam1" +:+ "-ensemble.vcf"))) None None None
     ∧ ∃ t, files (Ensemble.combine_calls Example.E0 "fam1" [Example.A; Example.B]
                     Example.A Example.w_headers).2
            !! Py.path_join
                 (Py.path_join (Py.path_join (dirs_work Example.A) "ensemble") "fam1")
                 ("fam1" +:+ "-ensemble.vcf")
            = Some (File t Ensemble.empty_vcf)).
Proof.
  apply (combine_calls_validates_what_it_reports Example.E0 "fam1"
           [Example.A; Example.B] Example.A Example.w_headers).
  by vm_compute.
Defined.

Section NoCall.

Import Ensemble.

Context {A : Type} (view : A → sample) (check : A → bool).

Lemma group_loop_none_qualify l : ∀ g e,
  Forall (λ d, check d = false) l →
  group_loop view check (g, e) l = Ok (g, e ++ map (λ d, [d]) l).
Proof.
  induction l as [|d l IH]; intros g e Hall.
  - cbn. by rewrite app_nil_r.
  - inversion Hall as [|? ? Hd Hl]; subst. cbn [group_loop]. unfold group_step.
    rewrite Hd. cbn. rewrite IH by done. by rewrite <- app_assoc.
Qed.

End NoCall.

(** X21.  When no input sample qualifies, [combine_calls_parallel] does
    not touch [run_parallel]: whatever [run_parallel] would do, the call
    returns the input samples, each wrapped on its own and in input
    order, and leaves dictionaries, files and collaborators alone. *)
Theorem no_qualifying_sample_no_parallel_call :
  ∀ (h : store) (samples : list (list nat)) (datas : list nat) run_parallel (w : world),
    Forall2 (λ x d, head x = Some d) samples datas →
    Forall (λ d, Ensemble._has_ensemble (h d) = false) datas →
    Ensemble.combine_calls_parallel h samples run_parallel w
    = (Ok (map (λ d, [d]) datas, h), w).
Proof.
  intros h samples datas run_parallel w Hheads Hnone.
  assert (Ensemble._group_by_batches h samples (λ data, Ensemble._has_ensemble (h data))
          = Ok (∅, map (λ d, [d]) datas)) as Hg.
  { unfold Ensemble._group_by_batches.
    rewrite (heads_mapM_first samples datas Hheads).
    apply (group_loop_none_qualify h (λ data, Ensemble._has_ensemble (h data))
             datas ∅ [] Hnone). }
  unfold Ensemble.combine_calls_parallel. rewrite Hg.
  unfold lift. unfold mbind at 1, M_bind at 1. unfold mbind at 1, M_bind at 1.
  rewrite bool_decide_eq_false_2 by (by intros Hne).
  by unfold mret, M_ret.
Qed.

Lemma no_qualifying_sample_no_parallel_call_witness :
  Ensemble.combine_calls_parallel Example.h0 [[1%nat]; [1%nat; 0%nat]]
    (λ _ _, raise KeyError) Example.w_empty
  = (Ok (map (λ d, [d]) [1%nat; 1%nat], Example.h0), Example.w_empty).
Proof.
  apply no_qualifying_sample_no_parallel_call.
  - by repeat constructor.
  - by repeat constructor.
Defined.

(** ** The files PureCN is expected to leave *)

Section PureCNFiles.

Import PureCNOut.

Lemma append_empty_r s : s +:+ "" = s.
Proof.
  induction s as [|c s IH]; [done|].
  change (String c (s +:+ "") = String c s). by rewrite IH.
Qed.

Lemma rev_app_append cur : ∀ acc r,
  String.rev_app cur acc +:+ r = String.rev_app cur (acc +:+ r).
Proof. induction cur as [|c cur IH]; intros acc r; [done|]. cbn. by rewrite IH. Qed.

Lemma basename_from_slash_free s : ∀ cur,
  slash_free s = true → FS.basename_from cur s = String.rev cur +:+ s.
Proof.
  induction s as [|c s IH]; intros cur Hs.
  - cbn [FS.basename_from]. symmetry. apply append_empty_r.
  - cbn [FS.basename_from]. cbn in Hs. apply andb_true_iff in Hs as [Hc Hs].
    destruct (Ascii.eqb c "/"); [done|]. rewrite (IH _ Hs).
    unfold String.rev. cbn [String.rev_app]. by rewrite !rev_app_append.
Qed.

Lemma basename_from_append s b : ∀ cur,
  slash_free s = true →
  FS.basename_from cur (b +:+ s) = FS.basename_from cur b +:+ s.
Proof.
  induction b as [|c b IH]; intros cur Hs.
  - change ("" +:+ s) with s. cbn [FS.basename_from].
    by apply basename_from_slash_free.
  - change (String c b +:+ s) with (String c (b +:+ s)). cbn [FS.basename_from].
    destruct (Ascii.eqb c "/"); by apply IH.
Qed.

Lemma basename_append b s :
  slash_free s = true → FS.basename (b +:+ s) = FS.basename b +:+ s.
Proof. apply basename_from_append. Qed.

Lemma append_inj_r b : ∀ s t, b +:+ s = b +:+ t → s = t.
Proof. induction b as [|c b IH]; intros s t H; [done|]. injection H as H. by apply IH. Qed.

Lemma plot_file_suffix b plot :
  plot ∈ plot_names →
  plot_file b plot = b +:+ plot_file "" plot ∧ plot_file "" plot ∈ suffixes.
Proof.
  intros Hin. unfold plot_names in Hin.
  repeat (apply elem_of_cons in Hin as [->|Hin]);
    [| | | |by apply elem_of_nil in Hin];
    (split; [done|]); apply list_elem_of_In; vm_compute; tauto.
Qed.

Lemma res_bind_ok {A B : Type} (a : A) (f : A → res B) : (Ok a ≫= f) = f a.
Proof. done. Qed.

Lemma plot_steps b plots : ∀ out m all,
  out !! "plot" = Some (Plots m) →
  ∃ out' m',
    fold_res (plot_step b) (out, all) plots
    = Ok (out', all ++ map (λ p, FS.basename (plot_file b p)) plots)
    ∧ out' !! "plot" = Some (Plots m')
    ∧ (∀ k, k ≠ "plot" → out' !! k = out !! k)
    ∧ (∀ k v, m' !! k = Some v → (k ∈ plots ∧ v = plot_file b k) ∨ m !! k = Some v).
Proof.
  induction plots as [|p plots IH]; intros out m all Hp.
  - exists out, m. cbn. rewrite app_nil_r. repeat split; [done|]. intros; by right.
  - assert (plot_step b (out, all) p
            = Ok (<["plot" := Plots (<[p := plot_file b p]> m)]> out,
                  all ++ [FS.basename (plot_file b p)])) as Hstep.
    { unfold plot_step, set_plot. by rewrite Hp. }
    cbn [fold_res map]. rewrite Hstep, res_bind_ok.
    destruct (IH (<["plot" := Plots (<[p := plot_file b p]> m)]> out)
                 (<[p := plot_file b p]> m) (all ++ [FS.basename (plot_file b p)]))
      as (out' & m' & Hf & Hp' & Hk & Hm); [by rewrite lookup_insert_eq|].
    exists out', m'. rewrite Hf, <- app_assoc. split; [done|]. split; [done|]. split.
    + intros k Hne. rewrite (Hk k Hne). by rewrite lookup_insert_ne.
    + intros k v Hv. destruct (Hm k v Hv) as [[Hin ->]|Hl].
      * left. split; [by right|done].
      * apply lookup_insert_Some in Hl as [[<- <-]|[_ Hl]]; [|by right].
        left. split; [by left|done].
Qed.

Lemma key_steps b kes : ∀ out all,
  (fold_left (key_step b) kes (out, all)).2
  = all ++ map (λ ke, FS.basename (b +:+ ke.2)) kes
  ∧ ∀ k v, (fold_left (key_step b) kes (out, all)).1 !! k = Some v →
      (∃ ext, (k, ext) ∈ kes ∧ v = Path (b +:+ ext)) ∨ out !! k = Some v.
Proof.
  induction kes as [|[key ext] kes IH]; intros out all.
  - cbn. rewrite app_nil_r. split; [done|]. intros; by right.
  - cbn [fold_left key_step].
    destruct (IH (<[key := Path (b +:+ ext)]> out) (all ++ [FS.basename (b +:+ ext)]))
      as [Hall Hout].
    split; [rewrite Hall, <- app_assoc; done|].
    intros k v Hv. destruct (Hout k v Hv) as [(e & Hin & ->)|Hl].
    + left. exists e. split; [by right|done].
    + apply lookup_insert_Some in Hl as [[<- <-]|[_ Hl]]; [|by right].
      left. exists ext. split; [by left|done].
Qed.

End PureCNFiles.

(** X22.  [_get_purecn_files] never fails.  The names it lists in
    [all_files] are the base name of [out_base] followed by eleven
    endings, so no two of them are the same, and every path the
    dictionary it returns holds, at the top or under "plot", is
    [out_base] followed by one of these endings: its base name is among
    the names listed. *)
Theorem purecn_files_are_listed_once :
  ∀ (sample_name work_dir : string),
    let out_base := Py.path_join work_dir (sample_name +:+ "-purecn") in
    ∃ out all_files,
      PureCNOut._get_purecn_files sample_name work_dir = Ok (out_base, out, all_files)
      ∧ all_files = map (λ s, FS.basename out_base +:+ s) PureCNOut.suffixes
      ∧ NoDup all_files
      ∧ ∀ p, PureCNOut.holds out p →
          ∃ s, s ∈ PureCNOut.suffixes ∧ p = out_base +:+ s
               ∧ FS.basename p ∈ all_files.
Proof.
  intros sample_name work_dir out_base. unfold PureCNOut._get_purecn_files.
  fold out_base.
  destruct (plot_steps out_base PureCNOut.plot_names {[ "plot" := PureCNOut.Plots ∅ ]}
              ∅ []) as (out1 & m1 & Hf & Hp1 & Hk1 & Hm1); [done|].
  rewrite Hf, res_bind_ok.
  destruct (key_steps out_base PureCNOut.keyed_exts out1
              ([] ++ map (λ p, FS.basename (PureCNOut.plot_file out_base p))
                         PureCNOut.plot_names)) as [Hall Hout].
  destruct (fold_left _ PureCNOut.keyed_exts _) as [out all_files]. cbn in Hall, Hout.
  exists out, all_files. split; [done|].
  assert (all_files = map (λ s, FS.basename out_base +:+ s) PureCNOut.suffixes) as Hnames.
  { rewrite Hall. unfold PureCNOut.suffixes, PureCNOut.plot_names, PureCNOut.keyed_exts.
    cbn [map app fst snd]. unfold PureCNOut.plot_file. cbn [String.eqb Ascii.eqb Bool.eqb].
    by rewrite <- !basename_append by done. }
  split; [done|]. split.
  { rewrite Hnames. apply (NoDup_fmap_2_strong (λ s, FS.basename out_base +:+ s)).
    - intros s t _ _. apply append_inj_r.
    - apply (bool_decide_unpack _). by vm_compute. }
  assert (∀ s, s ∈ PureCNOut.suffixes → FS.basename (out_base +:+ s) ∈ all_files) as Hin.
  { intros s Hs. rewrite Hnames, basename_append.
    - by apply (list_elem_of_fmap_2 (λ s, FS.basename out_base +:+ s)).
    - revert s Hs. apply Forall_forall. unfold PureCNOut.suffixes. cbn.
      by repeat constructor. }
  intros p [(key & Hkey)|(m & plot & Hplot & Hm)].
  - destruct (Hout key _ Hkey) as [(ext & Hext & [= ->])|Hold].
    + exists ext. assert (ext ∈ PureCNOut.suffixes) as Hs.
      { unfold PureCNOut.suffixes. apply elem_of_app. right.
        by apply (list_elem_of_fmap_2 snd _ (key, ext)). }
      split; [done|]. split; [done|]. by apply Hin.
    + destruct (decide (key = "plot")) as [->|Hne]; [congruence|].
      rewrite (Hk1 key Hne) in Hold. by rewrite lookup_singleton_ne in Hold.
  - destruct (Hout "plot" _ Hplot) as [(ext & Hext & ?)|Hold]; [done|].
    rewrite Hp1 in Hold. injection Hold as <-.
    destruct (Hm1 plot p Hm) as [[Hpl ->]|Hempty]; [|by rewrite lookup_empty in Hempty].
    destruct (plot_file_suffix out_base plot Hpl) as [Heq Hs].
    exists (PureCNOut.plot_file "" plot). split; [done|]. split; [done|].
    rewrite Heq. by apply Hin.
Qed.
